(** * fhEVM SDK: the [FhevmClient] core and its retry utility

    A shallow embedding of [fhevm-sdk/src/core/FhevmClient.ts], of the
    initialisation effect of [fhevm-sdk/src/hooks/useFhevm.ts] and of the
    retry-with-backoff utility, together with the properties that the
    specification states about them.

    The external collaborators (the ethers provider, [createInstance] of
    fhevmjs and the fhevmjs instance) are not part of the repository: they
    are a record of oracles, [External], whose answers may depend on every
    call made so far.  Every call to a collaborator is recorded in a trace,
    so that "no call is made" and "exactly one call is made" are statements
    about that trace. *)

From Stdlib Require Import ZArith List String Ascii Bool Lia PeanoNat.
From Stdlib Require Import Floats.SpecFloat.
Import ListNotations.

Local Open Scope string_scope.
Local Open Scope list_scope.
Local Open Scope Z_scope.

(** ** JavaScript values used by the client *)

(** A [bigint] is an unbounded integer. *)
Definition bigint := Z.

(** A [number] is an IEEE 754 binary64 value. *)
Definition number := spec_float.

(** [Number(value)] for a bigint [value]: the nearest binary64 value, ties to
    even (53 bits of precision, infinities at exponent 1024). *)
Definition Number (value : bigint) : number :=
  binary_normalize 53 1024 value 0 false.

(** [x < y] on numbers. *)
Definition number_ltb (x y : number) : bool := SFltb x y.

(** [x <= y] on numbers. *)
Definition number_leb (x y : number) : bool := SFleb x y.

(** [0 <= x < 2^32]: the range of a 32-bit unsigned integer. *)
Definition in_uint32_range (x : number) : bool :=
  number_leb (S754_zero false) x && number_ltb x (Number (2 ^ 32)).

(** The integer a number stands for, when it is one. *)
Definition number_to_Z (x : number) : option Z :=
  match x with
  | S754_zero _ => Some 0
  | S754_finite s m e =>
      if 0 <=? e then Some (cond_Zopp s (Zpos m * 2 ^ e))
      else if Zpos m mod 2 ^ (- e) =? 0
           then Some (cond_Zopp s (Zpos m / 2 ^ (- e)))
           else None
  | _ => None
  end.

(** A thrown value: an [Error] object with its [name] and [message]. *)
Record Error : Type := mkError { name : string; message : string }.

(** [new Error(msg)]. *)
Definition newError (msg : string) : Error :=
  {| name := "Error"; message := msg |}.

(** [Error.prototype.toString], which a template literal [`${error}`] calls. *)
Definition toString (error : Error) : string :=
  if (name error =? "")%string then message error
  else if (message error =? "")%string then name error
  else (name error ++ ": " ++ message error)%string.

Definition Uint8Array := list Byte.byte.

(** ** Types of [types/index.ts] *)

Inductive NetworkName := sepolia | localhost | mainnet.

Record FhevmConfig : Type := mkConfig {
  network : NetworkName;
  gatewayUrl : option string;
  aclAddress : option string
}.

Record EncryptedInput : Type := mkEncryptedInput {
  data : Uint8Array;
  handles : list bigint
}.

(** ** External collaborators *)

(** What [provider.getNetwork()] resolves to. *)
Record Network : Type := mkNetwork { chainId : bigint }.

(** An instance made by fhevmjs: an opaque object. *)
Inductive FhevmJsInstance := Instance (id : nat).

(** The argument of [createInstance]. *)
Record InstanceParams : Type := mkParams {
  p_chainId : number;
  p_publicKey : string;
  p_gatewayUrl : option string
}.

(** Everything observable that the code does outside of its own object. *)
Inductive event :=
| GetNetwork
| GetCode (address : string)
| CreateInstance (params : InstanceParams)
| InstanceEncrypt32 (inst : FhevmJsInstance) (value : number)
| ConsoleWarn (msg : string)
| Sleep (ms : Z).

Definition trace := list event.

(** The outcome of a call: a value, or a thrown error (a rejected promise). *)
Inductive result (A : Type) :=
| Ok (a : A)
| Throw (error : Error).
Arguments Ok {A} a.
Arguments Throw {A} error.

(** The collaborators answer as a function of the calls made before. *)
Record External : Type := mkExternal {
  getNetwork : trace -> result Network;
  getCode : trace -> string -> result string;
  createInstance : trace -> InstanceParams -> result FhevmJsInstance;
  instance_encrypt32 : trace -> FhevmJsInstance -> number -> result Uint8Array
}.

(** ** The client object *)

Record FhevmClient : Type := mkClient {
  instance : option FhevmJsInstance;
  config : FhevmConfig;
  initialized : bool
}.

(** The constructor, and [createFhevmClient]. *)
Definition createFhevmClient (config : FhevmConfig) : FhevmClient :=
  {| instance := None; config := config; initialized := false |}.

(** ** Methods as state transformers

    A method runs on the object [this] and on the trace of calls made so
    far; it returns its outcome, the object and the trace afterwards. *)

Definition M (A : Type) : Type :=
  FhevmClient -> trace -> result A * FhevmClient * trace.

Definition ret {A} (a : A) : M A := fun this tr => (Ok a, this, tr).

Definition throw {A} (error : Error) : M A := fun this tr => (Throw error, this, tr).

Definition bind {A B} (m : M A) (k : A -> M B) : M B :=
  fun this tr =>
    match m this tr with
    | (Ok a, this', tr') => k a this' tr'
    | (Throw error, this', tr') => (Throw error, this', tr')
    end.

(** [try { body } catch (error) { handler }]. *)
Definition try_catch {A} (body : M A) (handler : Error -> M A) : M A :=
  fun this tr =>
    match body this tr with
    | (Ok a, this', tr') => (Ok a, this', tr')
    | (Throw error, this', tr') => handler error this' tr'
    end.

Definition get_this : M FhevmClient := fun this tr => (Ok this, this, tr).

Definition set_instance (i : FhevmJsInstance) : M unit :=
  fun this tr =>
    (Ok tt, {| instance := Some i; config := config this;
               initialized := initialized this |}, tr).

Definition set_initialized (b : bool) : M unit :=
  fun this tr =>
    (Ok tt, {| instance := instance this; config := config this;
               initialized := b |}, tr).

(** A call to a collaborator: it is recorded, and answered from the calls
    made before it. *)
Definition call {A} (answer : trace -> result A) (ev : event) : M A :=
  fun this tr => (answer tr, this, tr ++ [ev]).

(** An effect with no answer. *)
Definition emit (ev : event) : M unit :=
  fun this tr => (Ok tt, this, tr ++ [ev]).

Declare Scope client_scope.
Delimit Scope client_scope with client.
Notation "x <- m ;; k" := (bind m (fun x => k))
  (at level 100, m at next level, right associativity) : client_scope.
Notation "m ;;; k" := (bind m (fun _ => k))
  (at level 100, right associativity) : client_scope.
Local Open Scope client_scope.

(** [a || b] on an optional string: [undefined] and the empty string are
    falsy. *)
Definition or_default (a : option string) (b : string) : string :=
  match a with
  | Some s => if (s =? "")%string then b else s
  | None => b
  end.

Definition DEFAULT_ACL : string := "0x2Fb4341bc8584e3aB78068BcD8B1aC42E25BEED5".
Definition NOT_INITIALIZED : string :=
  "FhevmClient not initialized. Call initialize() first.".

Section Client.

Variable ext : External.

(** [FhevmClient.getPublicKey] (private). *)
Definition getPublicKey : M string :=
  this <- get_this ;;
  let aclAddress := or_default (aclAddress (config this)) DEFAULT_ACL in
  try_catch
    (code <- call (fun tr => getCode ext tr aclAddress) (GetCode aclAddress) ;;
     (if (code =? "0x")%string
      then throw (newError "ACL contract not found")
      else ret tt) ;;;
     ret "0x")
    (fun error =>
       emit (ConsoleWarn "Failed to fetch public key, using default") ;;;
       ret "0x").

(** [FhevmClient.initialize]. *)
Definition initialize : M unit :=
  this <- get_this ;;
  if initialized this then ret tt
  else
    try_catch
      (network <- call (getNetwork ext) GetNetwork ;;
       let chainId := chainId network in
       publicKey <- getPublicKey ;;
       let params := {| p_chainId := Number chainId;
                        p_publicKey := publicKey;
                        p_gatewayUrl := gatewayUrl (config this) |} in
       i <- call (fun tr => createInstance ext tr params) (CreateInstance params) ;;
       set_instance i ;;;
       set_initialized true)
      (fun error =>
         throw (newError ("Failed to initialize fhEVM: " ++ toString error)%string)).

(** [FhevmClient.encrypt32]. *)
Definition encrypt32 (value : number) : M EncryptedInput :=
  this <- get_this ;;
  match initialized this, instance this with
  | true, Some inst =>
      try_catch
        (encrypted <- call (fun tr => instance_encrypt32 ext tr inst value)
                           (InstanceEncrypt32 inst value) ;;
         ret {| data := encrypted; handles := [] |})
        (fun error =>
           throw (newError ("Failed to encrypt value: " ++ toString error)%string))
  | _, _ => throw (newError NOT_INITIALIZED)
  end.

(** [FhevmClient.encrypt64]. *)
Definition encrypt64 (value : bigint) : M EncryptedInput :=
  this <- get_this ;;
  match initialized this, instance this with
  | true, Some inst =>
      try_catch
        (encrypted <- call (fun tr => instance_encrypt32 ext tr inst (Number value))
                           (InstanceEncrypt32 inst (Number value)) ;;
         ret {| data := encrypted; handles := [] |})
        (fun error =>
           throw (newError ("Failed to encrypt value: " ++ toString error)%string))
  | _, _ => throw (newError NOT_INITIALIZED)
  end.

(** [FhevmClient.isInitialized]. *)
Definition isInitialized (this : FhevmClient) : bool := initialized this.


(** *** [initialize] as an asynchronous task

    An [async] method runs synchronously up to its first [await], where it
    has already issued the call it awaits, and is resumed later with the
    answer.  Between two suspension points nothing else runs (one thread,
    cooperative scheduling); at a suspension point any other task may run on
    the same object.  The states below are the suspension points of
    [initialize]: the pending answer is the one the collaborator gave when
    the call was issued. *)

Inductive init_task :=
| AwaitNetwork (pending : result Network)
| AwaitCode (chainId : bigint) (pending : result string)
| AwaitPublicKey (chainId : bigint) (publicKey : string)
| AwaitInstance (pending : result FhevmJsInstance)
| Done (outcome : result unit).

Definition initialize_failed (error : Error) : Error :=
  newError ("Failed to initialize fhEVM: " ++ toString error)%string.

Definition public_key_warning : event :=
  ConsoleWarn "Failed to fetch public key, using default".

(** The call [initialize()] itself: the guard, then [getNetwork()] is issued. *)
Definition initialize_start (this : FhevmClient) (tr : trace)
  : init_task * FhevmClient * trace :=
  if initialized this then (Done (Ok tt), this, tr)
  else (AwaitNetwork (getNetwork ext tr), this, tr ++ [GetNetwork]).

(** One resumption: from a suspension point to the next one. *)
Definition initialize_resume (t : init_task) (this : FhevmClient) (tr : trace)
  : init_task * FhevmClient * trace :=
  match t with
  | AwaitNetwork (Throw error) => (Done (Throw (initialize_failed error)), this, tr)
  | AwaitNetwork (Ok network) =>
      let aclAddress := or_default (aclAddress (config this)) DEFAULT_ACL in
      (AwaitCode (chainId network) (getCode ext tr aclAddress), this,
       tr ++ [GetCode aclAddress])
  | AwaitCode c (Ok code) =>
      if (code =? "0x")%string
      then (AwaitPublicKey c "0x", this, tr ++ [public_key_warning])
      else (AwaitPublicKey c "0x", this, tr)
  | AwaitCode c (Throw _) => (AwaitPublicKey c "0x", this, tr ++ [public_key_warning])
  | AwaitPublicKey c publicKey =>
      let params := {| p_chainId := Number c;
                       p_publicKey := publicKey;
                       p_gatewayUrl := gatewayUrl (config this) |} in
      (AwaitInstance (createInstance ext tr params), this,
       tr ++ [CreateInstance params])
  | AwaitInstance (Throw error) => (Done (Throw (initialize_failed error)), this, tr)
  | AwaitInstance (Ok i) =>
      (Done (Ok tt),
       {| instance := Some i; config := config this; initialized := true |}, tr)
  | Done outcome => (Done outcome, this, tr)
  end.

(** Several calls of [initialize] in flight on one client object. *)
Record pool : Type := mkPool {
  tasks : list init_task;
  shared : FhevmClient;
  log : trace
}.

Inductive action :=
| CallInitialize
| Resume (k : nat).

Fixpoint replace_nth {A} (k : nat) (x : A) (l : list A) : list A :=
  match l, k with
  | [], _ => []
  | _ :: l', O => x :: l'
  | y :: l', S k' => y :: replace_nth k' x l'
  end.

Definition step (a : action) (p : pool) : pool :=
  match a with
  | CallInitialize =>
      let '(t, this, tr) := initialize_start (shared p) (log p) in
      {| tasks := tasks p ++ [t]; shared := this; log := tr |}
  | Resume k =>
      match nth_error (tasks p) k with
      | Some t =>
          let '(t', this, tr) := initialize_resume t (shared p) (log p) in
          {| tasks := replace_nth k t' (tasks p); shared := this; log := tr |}
      | None => p
      end
  end.

Definition run (schedule : list action) (p : pool) : pool :=
  fold_left (fun p a => step a p) schedule p.

(** *** The initialisation effect of [FhevmProvider] ([hooks/useFhevm.ts]) *)

(** The three [useState] cells of the provider component. *)
Record FhevmContextValue : Type := mkContext {
  ctx_client : option FhevmClient;
  ctx_isInitialized : bool;
  ctx_error : option Error
}.

(** The default value of [FhevmContext], and the initial state. *)
Definition FhevmContext_default : FhevmContextValue :=
  {| ctx_client := None; ctx_isInitialized := false; ctx_error := None |}.

(** [init()], the body of the effect, run to its end. *)
Definition FhevmProvider_init (config : FhevmConfig)
    (st : FhevmContextValue) (tr : trace) : FhevmContextValue * trace :=
  let fhevmClient := createFhevmClient config in
  match initialize fhevmClient tr with
  | (Ok _, fhevmClient', tr') =>
      ({| ctx_client := Some fhevmClient';
          ctx_isInitialized := true;
          ctx_error := ctx_error st |}, tr')
  | (Throw err, _, tr') =>
      ({| ctx_client := ctx_client st;
          ctx_isInitialized := ctx_isInitialized st;
          ctx_error := Some err |}, tr')
  end.

(** The effect run [n] times (remounts, or a [config] object that changes
    identity between renders). *)
Fixpoint FhevmProvider_effects (config : FhevmConfig) (n : nat)
    (st : FhevmContextValue) (tr : trace) : FhevmContextValue * trace :=
  match n with
  | O => (st, tr)
  | S n' =>
      let '(st', tr') := FhevmProvider_init config st tr in
      FhevmProvider_effects config n' st' tr'
  end.

End Client.

(** The number of [getNetwork()] calls in a trace. *)
Definition is_GetNetwork (ev : event) : bool :=
  match ev with GetNetwork => true | _ => false end.

Definition getNetwork_calls (tr : trace) : nat :=
  List.length (filter is_GetNetwork tr).

(** The calls to the instance's [encrypt32] in a trace. *)
Definition encrypt_calls (tr : trace) : list (FhevmJsInstance * number) :=
  flat_map (fun ev => match ev with
                      | InstanceEncrypt32 inst value => [(inst, value)]
                      | _ => []
                      end) tr.

(** The delays slept in a trace. *)
Definition sleeps (tr : trace) : list Z :=
  flat_map (fun ev => match ev with Sleep ms => [ms] | _ => [] end) tr.

(** ** The retry-with-backoff utility *)

Inductive decision :=
| Exhausted
| RetryAfter (delay : Z).

(** Modelled from the spec: the retry policy of [utils/index.ts], whose
    source is missing.  After a failed attempt [attemptNumber] (counted from
    1): exhaustion when [attemptNumber > maxRetries], otherwise a delay of
    [baseDelay * 2^(attemptNumber-1)]. *)
Definition RetryPolicy (attemptNumber maxRetries : nat) (baseDelay : Z) : decision :=
  if (maxRetries <? attemptNumber)%nat then Exhausted
  else RetryAfter (baseDelay * 2 ^ (Z.of_nat attemptNumber - 1)).

(** Modelled from the spec: [sleep(ms)] of [utils/index.ts], whose source is
    missing; the suspension is recorded in the trace. *)
Definition sleep (ms : Z) : M unit := emit (Sleep ms).

(** Modelled from the spec: the loop of [retryWithBackoff], whose source is
    missing, from attempt [attemptNumber] on.  On failure the policy is
    asked: on exhaustion the last error is thrown again as it is, otherwise
    the caller sleeps and tries again.  [retriesLeft] bounds the recursion;
    it is [maxRetries + 1 - attemptNumber] throughout, so it is zero exactly
    when the policy signals exhaustion. *)
Fixpoint retry_from {A} (fn : M A) (maxRetries : nat) (baseDelay : Z)
    (retriesLeft attemptNumber : nat) : M A :=
  try_catch fn
    (fun error =>
       match RetryPolicy attemptNumber maxRetries baseDelay, retriesLeft with
       | RetryAfter delay, S retriesLeft' =>
           sleep delay ;;;
           retry_from fn maxRetries baseDelay retriesLeft' (S attemptNumber)
       | _, _ => throw error
       end).

(** Modelled from the spec: [retryWithBackoff(fn, maxRetries, baseDelay)] of
    [utils/index.ts], whose source is missing.  Attempt 1 is the initial
    try. *)
Definition retryWithBackoff {A} (fn : M A) (maxRetries : nat) (baseDelay : Z) : M A :=
  retry_from fn maxRetries baseDelay maxRetries 1.

Definition DEFAULT_MAX_RETRIES : nat := 3.
Definition DEFAULT_BASE_DELAY : Z := 1000.

(** ** Vocabulary of the properties *)

(** The guard of the encrypt methods: [this.initialized && this.instance]. *)
Definition ready (this : FhevmClient) : bool :=
  initialized this && match instance this with Some _ => true | None => false end.

(** The object after a successful [initialize] that built instance [i]. *)
Definition initialized_with (this : FhevmClient) (i : FhevmJsInstance) : FhevmClient :=
  {| instance := Some i; config := config this; initialized := true |}.

(** The address whose code [getPublicKey] asks for. *)
Definition acl_of (this : FhevmClient) : string :=
  or_default (aclAddress (config this)) DEFAULT_ACL.

(** What [getPublicKey] adds to the trace. *)
Definition publicKey_events (ext : External) (this : FhevmClient) (tr : trace)
  : list event :=
  GetCode (acl_of this) ::
  match getCode ext tr (acl_of this) with
  | Ok code => if (code =? "0x")%string then [public_key_warning] else []
  | Throw _ => [public_key_warning]
  end.

(** The argument [initialize] gives to [createInstance]. *)
Definition params_of (this : FhevmClient) (network : Network) : InstanceParams :=
  {| p_chainId := Number (chainId network);
     p_publicKey := "0x";
     p_gatewayUrl := gatewayUrl (config this) |}.

(** The three ways [initialize] ends on a client that is not initialised. *)
Inductive initialize_outcome (ext : External) (this : FhevmClient) (tr : trace)
  : result unit * FhevmClient * trace -> Prop :=
| NetworkFailed error :
    getNetwork ext tr = Throw error ->
    initialize_outcome ext this tr
      (Throw (initialize_failed error), this, tr ++ [GetNetwork])
| InstanceFailed network error :
    getNetwork ext tr = Ok network ->
    createInstance ext
      ((tr ++ [GetNetwork]) ++ publicKey_events ext this (tr ++ [GetNetwork]))
      (params_of this network) = Throw error ->
    initialize_outcome ext this tr
      (Throw (initialize_failed error), this,
       ((tr ++ [GetNetwork]) ++ publicKey_events ext this (tr ++ [GetNetwork]))
       ++ [CreateInstance (params_of this network)])
| Initialized network i :
    getNetwork ext tr = Ok network ->
    createInstance ext
      ((tr ++ [GetNetwork]) ++ publicKey_events ext this (tr ++ [GetNetwork]))
      (params_of this network) = Ok i ->
    initialize_outcome ext this tr
      (Ok tt, initialized_with this i,
       ((tr ++ [GetNetwork]) ++ publicKey_events ext this (tr ++ [GetNetwork]))
       ++ [CreateInstance (params_of this network)]).

Definition is_Resume (a : action) : bool :=
  match a with Resume _ => true | CallInitialize => false end.

(** No call of [initialize] has been made yet on [this]. *)
Definition idle (this : FhevmClient) (tr : trace) : pool :=
  {| tasks := []; shared := this; log := tr |}.

(** One call of [initialize], resumed until it is done. *)
Definition alone : list action :=
  [CallInitialize; Resume 0; Resume 0; Resume 0; Resume 0].

(** Every one of five tasks resumed four times, in turn. *)
Definition round_robin5 : list action :=
  List.concat (repeat [Resume 0; Resume 1; Resume 2; Resume 3; Resume 4] 4).

(** The operation fails whenever it is tried. *)
Definition always_fails {A} (fn : M A) : Prop :=
  forall this tr, exists error this' tr', fn this tr = (Throw error, this', tr').

(** The operation does not sleep by itself. *)
Definition quiet {A} (fn : M A) : Prop :=
  forall this tr, sleeps (snd (fn this tr)) = sleeps tr.

(** The delays after the failed attempts [from], [from + 1], ... ([count] of
    them), by the doubling law. *)
Definition backoff_delays (baseDelay : Z) (from count : nat) : list Z :=
  map (fun n => baseDelay * 2 ^ (Z.of_nat n - 1)) (seq from count).

(** ** Concrete collaborators, for the examples *)

Definition example_config : FhevmConfig :=
  {| network := sepolia; gatewayUrl := None; aclAddress := None |}.

Definition sepolia_network : Network := {| chainId := 11155111 |}.

Definition sample_ciphertext : Uint8Array := [Byte.x00; Byte.x2a].

(** Every collaborator answers, and the instance encrypts whatever number it
    is given. *)
Definition healthy : External :=
  {| getNetwork := fun _ => Ok sepolia_network;
     getCode := fun _ _ => Ok "0x6080";
     createInstance := fun _ _ => Ok (Instance 0);
     instance_encrypt32 := fun _ _ _ => Ok sample_ciphertext |}.

(** As [healthy], but reading the code of the ACL contract fails. *)
Definition no_acl : External :=
  {| getNetwork := fun _ => Ok sepolia_network;
     getCode := fun _ _ => Throw (newError "missing response");
     createInstance := fun _ _ => Ok (Instance 0);
     instance_encrypt32 := fun _ _ _ => Ok sample_ciphertext |}.

(** As [healthy], but the first call to the instance's [encrypt32] fails;
    every later one succeeds. *)
Definition flaky : External :=
  {| getNetwork := fun _ => Ok sepolia_network;
     getCode := fun _ _ => Ok "0x6080";
     createInstance := fun _ _ => Ok (Instance 0);
     instance_encrypt32 := fun tr _ _ =>
       match encrypt_calls tr with
       | [] => Throw (newError "timeout")
       | _ :: _ => Ok sample_ciphertext
       end |}.

(** Nothing answers: call number [k] (counted over the whole trace) fails
    with its own message. *)
Definition failure (tr : trace) : Error :=
  newError (String (Ascii.ascii_of_nat (48 + List.length tr)) "").

Definition offline : External :=
  {| getNetwork := fun tr => Throw (failure tr);
     getCode := fun tr _ => Throw (failure tr);
     createInstance := fun tr _ => Throw (failure tr);
     instance_encrypt32 := fun tr _ _ => Throw (failure tr) |}.

(** The network is down for the first call and up afterwards. *)
Definition recovering : External :=
  {| getNetwork := fun tr =>
       match tr with [] => Throw (newError "network down") | _ => Ok sepolia_network end;
     getCode := fun _ _ => Ok "0x6080";
     createInstance := fun _ _ => Ok (Instance 0);
     instance_encrypt32 := fun _ _ _ => Ok sample_ciphertext |}.

(** A client on which [initialize] has succeeded. *)
Definition ready_client : FhevmClient :=
  initialized_with (createFhevmClient example_config) (Instance 0).

(** ** The decryption signature ([core/FhevmClient.ts]) *)

Record DecryptionRequest : Type := mkRequest {
  contractAddress : string;
  handle : bigint;
  userAddress : string
}.

(** What [instance.generateToken] returns; the client reads its [token]. *)
Record TokenResult : Type := mkToken { token : string }.

(** The calls of the client core, and the request of a token. *)
Inductive sdk_event :=
| Core (ev : event)
| GenerateToken (inst : FhevmJsInstance) (verifyingContract : string).

Definition history := list sdk_event.

(** [instance.generateToken({ verifyingContract })], answered from the
    calls made before. *)
Definition TokenIssuer : Type :=
  history -> FhevmJsInstance -> string -> result TokenResult.

Definition NOT_INITIALIZED_SHORT : string := "FhevmClient not initialized".

(** [FhevmClient.createDecryptionSignature]. *)
Definition createDecryptionSignature (generateToken : TokenIssuer)
    (contractAddress userAddress : string)
    (this : FhevmClient) (h : history) : result string * FhevmClient * history :=
  match initialized this, instance this with
  | true, Some inst =>
      match generateToken h inst contractAddress with
      | Ok signature =>
          (Ok (token signature), this, h ++ [GenerateToken inst contractAddress])
      | Throw error =>
          (Throw (newError ("Failed to create signature: " ++ toString error)%string),
           this, h ++ [GenerateToken inst contractAddress])
      end
  | _, _ => (Throw (newError NOT_INITIALIZED_SHORT), this, h)
  end.

(** [FhevmClient.requestDecryption]. *)
Definition requestDecryption (generateToken : TokenIssuer)
    (request : DecryptionRequest)
    (this : FhevmClient) (h : history) : result string * FhevmClient * history :=
  match createDecryptionSignature generateToken
          (contractAddress request) (userAddress request) this h with
  | (Ok signature, this', h') => (Ok signature, this', h')
  | (Throw error, this', h') => (Throw error, this', h')
  end.

(** [FhevmClient.getInstance]. *)
Definition getInstance (this : FhevmClient) : option FhevmJsInstance := instance this.

(** The token requests in a history. *)
Definition token_requests (h : history) : list (FhevmJsInstance * string) :=
  flat_map (fun ev => match ev with
                      | GenerateToken inst c => [(inst, c)]
                      | Core _ => []
                      end) h.

(** ** Sequences of method calls on one client *)

Inductive client_op :=
| OpInitialize
| OpEncrypt32 (value : number)
| OpEncrypt64 (value : bigint).

(** One call, awaited; its outcome is dropped. *)
Definition run_op (ext : External) (op : client_op)
    (s : FhevmClient * trace) : FhevmClient * trace :=
  let '(this, tr) := s in
  match op with
  | OpInitialize => let '(_, this', tr') := initialize ext this tr in (this', tr')
  | OpEncrypt32 value => let '(_, this', tr') := encrypt32 ext value this tr in (this', tr')
  | OpEncrypt64 value => let '(_, this', tr') := encrypt64 ext value this tr in (this', tr')
  end.

Definition run_ops (ext : External) (ops : list client_op)
    (s : FhevmClient * trace) : FhevmClient * trace :=
  fold_left (fun s op => run_op ext op s) ops s.

(** The call of [initialize] has ended with success. *)
Definition succeeded (t : init_task) : bool :=
  match t with Done (Ok _) => true | _ => false end.

(** Some call of [initialize] in flight has ended with success. *)
Definition completed_ok (ts : list init_task) : bool := existsb succeeded ts.

(** The calls of [initialize] of a schedule that are made while no earlier
    call has ended with success, the schedule being run from pool [p]. *)
Fixpoint fresh_calls (ext : External) (schedule : list action) (p : pool) : nat :=
  match schedule with
  | [] => 0%nat
  | a :: rest =>
      ((match a with
        | CallInitialize => if completed_ok (tasks p) then 0 else 1
        | Resume _ => 0
        end) + fresh_calls ext rest (step ext a p))%nat
  end.

(** The [createInstance] calls in a trace. *)
Definition createInstance_calls (tr : trace) : list InstanceParams :=
  flat_map (fun ev => match ev with CreateInstance params => [params] | _ => [] end) tr.

(** ** The hooks of [hooks/useFhevm.ts]

    Of the two callbacks of [useEncrypt] only [encrypt32] is embedded: as the
    file stands, the arrow function of the [encrypt64] callback lacks its
    [=>] (line 101), so that callback has no meaning to embed. *)

(** The [useState] cells of [useEncrypt]. *)
Record EncryptState : Type := mkEncryptState {
  isEncrypting : bool;
  encrypt_error : option Error
}.

(** The [useState] cells of [useEncryptedBid]. *)
Record BidState : Type := mkBidState {
  isProcessing : bool;
  bid_error : option Error
}.

(** What [encryptBid] resolves to when it does not resolve to [null]. *)
Record EncryptedBid : Type := mkEncryptedBid {
  encryptedAmount : EncryptedInput;
  encryptedTime : EncryptedInput
}.

Definition HOOK_NOT_INITIALIZED : string := "fhEVM not initialized".

(** A call of the [encrypt32] callback of [useEncrypt]: it has returned
    already (the guard), or it is suspended at its [await], the client
    method having run (the method has no [await] of its own, so it runs to
    its end when it is called). *)
Inductive hook_call :=
| Returned (r : option EncryptedInput)
| Awaiting (answer : result EncryptedInput).

(** The callback up to its [await]; [method] is the client method it
    calls, [client.encrypt32(value)]. *)
Definition useEncrypt_start (method : M EncryptedInput)
    (ctx : FhevmContextValue) (st : EncryptState) (tr : trace)
  : hook_call * EncryptState * FhevmContextValue * trace :=
  match ctx_isInitialized ctx, ctx_client ctx with
  | true, Some client =>
      let st1 := {| isEncrypting := true; encrypt_error := encrypt_error st |} in
      let st2 := {| isEncrypting := isEncrypting st1; encrypt_error := None |} in
      let '(answer, client', tr') := method client tr in
      (Awaiting answer, st2,
       {| ctx_client := Some client';
          ctx_isInitialized := ctx_isInitialized ctx;
          ctx_error := ctx_error ctx |}, tr')
  | _, _ =>
      (Returned None,
       {| isEncrypting := isEncrypting st;
          encrypt_error := Some (newError HOOK_NOT_INITIALIZED) |}, ctx, tr)
  end.

(** The callback from its [await] to its end: [return], or [catch], and
    then [finally]. *)
Definition useEncrypt_resume (c : hook_call) (st : EncryptState)
  : option EncryptedInput * EncryptState :=
  match c with
  | Returned r => (r, st)
  | Awaiting (Ok encrypted) =>
      (Some encrypted,
       {| isEncrypting := false; encrypt_error := encrypt_error st |})
  | Awaiting (Throw err) =>
      (None, {| isEncrypting := false; encrypt_error := Some err |})
  end.



(** [useEncryptedBid().encryptBid]: the two callbacks are started one after
    the other by [Promise.all], and resumed in that order. *)
Definition encryptBid (ext : External) (bidAmount completionTime : number)
    (ctx : FhevmContextValue) (est : EncryptState) (bst : BidState) (tr : trace)
  : option EncryptedBid * BidState * EncryptState * FhevmContextValue * trace :=
  let bst1 := {| isProcessing := true; bid_error := bid_error bst |} in
  let bst2 := {| isProcessing := isProcessing bst1; bid_error := None |} in
  let '(c1, est1, ctx1, tr1) := useEncrypt_start (encrypt32 ext bidAmount) ctx est tr in
  let '(c2, est2, ctx2, tr2) := useEncrypt_start (encrypt32 ext completionTime) ctx1 est1 tr1 in
  let '(r1, est3) := useEncrypt_resume c1 est2 in
  let '(r2, est4) := useEncrypt_resume c2 est3 in
  match r1, r2 with
  | Some amount, Some time =>
      (Some {| encryptedAmount := amount; encryptedTime := time |},
       {| isProcessing := false; bid_error := bid_error bst2 |}, est4, ctx2, tr2)
  | _, _ =>
      (None,
       {| isProcessing := false;
          bid_error := Some (newError "Encryption failed") |}, est4, ctx2, tr2)
  end.

(** The context is one the provider can hold: when it says initialised, it
    holds a client on which [initialize] has succeeded. *)
Definition context_ok (ctx : FhevmContextValue) : Prop :=
  ctx_isInitialized ctx = true ->
  exists client, ctx_client ctx = Some client /\ ready client = true.

(** A token issuer that signs for every contract, and one that refuses. *)
Definition signing : TokenIssuer :=
  fun _ _ verifyingContract => Ok {| token := ("token:" ++ verifyingContract)%string |}.

Definition refusing : TokenIssuer :=
  fun _ _ _ => Throw (newError "user rejected").

Definition example_contract : string := "0xAD4f8099219E6aa0fB556eB6CC51A670682d30DE".

(** A context as the provider leaves it after a successful effect. *)
Definition ready_context : FhevmContextValue :=
  {| ctx_client := Some ready_client; ctx_isInitialized := true; ctx_error := None |}.

(** A context that is ready and still shows an error of an earlier run. *)
Definition stale_context : FhevmContextValue :=
  {| ctx_client := Some ready_client;
     ctx_isInitialized := true;
     ctx_error := Some (newError "earlier") |}.

Definition idle_encrypt : EncryptState :=
  {| isEncrypting := false; encrypt_error := None |}.

Definition idle_bid : BidState :=
  {| isProcessing := false; bid_error := None |}.

(** ** The contract [PrivacyConstructionBidding] (Solidity)

    A transaction runs on the storage of the contract, for a sender and at a
    block time; it succeeds with a new storage and the events it emitted, or
    it reverts and the storage is as before.  The FHE library is external:
    its operations are functions from and to handles (a handle is a
    [bytes32], here an integer), and its permission calls are recorded with
    the events. *)

Module Bidding.

Definition address := Z.

Definition MAX_UINT256 : Z := 2 ^ 256 - 1.

(** The conversion [uint32(x)] of a [uint256]: the low 32 bits. *)
Definition uint32 (x : Z) : Z := x mod 2 ^ 32.

(** [type(uint32).max]. *)
Definition MAX_UINT32 : Z := 2 ^ 32 - 1.

Record Project : Type := mkProject {
  name : string;
  description : string;
  creator : address;
  maxBudget : Z;
  deadline : Z;
  biddingEndTime : Z;
  isActive : bool;
  biddingClosed : bool;
  bidders : list address;
  winner : address;
  winningAmount : Z
}.

Record PrivateBid : Type := mkBid {
  encryptedAmount : Z;
  encryptedCompletionTime : Z;
  proposal : string;
  submitted : bool;
  timestamp : Z
}.

Record State : Type := mkState {
  owner : address;
  projectCount : Z;
  projects : Z -> Project;
  bids : Z -> address -> PrivateBid;
  authorizedContractors : address -> bool
}.

Inductive Log :=
| ProjectCreated (projectId : Z) (creator : address) (name : string)
| BidSubmitted (projectId : Z) (contractor : address)
| BiddingClosed (projectId : Z)
| WinnerSelected (projectId : Z) (winner : address)
| ContractorAuthorized (contractor : address)
| ContractorRevoked (contractor : address)
| AllowThis (handle : Z)
| Allow (handle : Z) (account : address).

Inductive Outcome (A : Type) :=
| Success (value : A) (s : State) (logs : list Log)
| Revert (reason : string)
| Panic.
Arguments Success {A} value s logs.
Arguments Revert {A} reason.
Arguments Panic {A}.

(** [msg.sender] and [block.timestamp]. *)
Record Msg : Type := mkMsg { sender : address; block_timestamp : Z }.

(** Storage never written holds zeros. *)
Definition no_project : Project :=
  {| name := ""; description := ""; creator := 0; maxBudget := 0; deadline := 0;
     biddingEndTime := 0; isActive := false; biddingClosed := false;
     bidders := []; winner := 0; winningAmount := 0 |}.

Definition no_bid : PrivateBid :=
  {| encryptedAmount := 0; encryptedCompletionTime := 0; proposal := "";
     submitted := false; timestamp := 0 |}.

(** The constructor. *)
Definition constructor (m : Msg) : State :=
  {| owner := sender m; projectCount := 0;
     projects := fun _ => no_project;
     bids := fun _ _ => no_bid;
     authorizedContractors := fun _ => false |}.

(** A mapping with one entry written. *)
Definition upd {B : Type} (f : Z -> B) (k : Z) (v : B) : Z -> B :=
  fun x => if x =? k then v else f x.

Definition set_authorized (s : State) (contractor : address) (b : bool) : State :=
  {| owner := owner s; projectCount := projectCount s; projects := projects s;
     bids := bids s;
     authorizedContractors := upd (authorizedContractors s) contractor b |}.

Definition set_project (s : State) (projectId : Z) (project : Project) : State :=
  {| owner := owner s; projectCount := projectCount s;
     projects := upd (projects s) projectId project;
     bids := bids s;
     authorizedContractors := authorizedContractors s |}.

(** [projectId > 0 && projectId <= projectCount]. *)
Definition valid_id (s : State) (projectId : Z) : bool :=
  (0 <? projectId) && (projectId <=? projectCount s).

Definition authorizeContractor (m : Msg) (contractor : address) (s : State)
  : Outcome unit :=
  if negb (sender m =? owner s) then Revert "Not authorized"
  else if authorizedContractors s contractor then Revert "Already authorized"
  else Success tt (set_authorized s contractor true)
         [ContractorAuthorized contractor].

Definition revokeContractor (m : Msg) (contractor : address) (s : State)
  : Outcome unit :=
  if negb (sender m =? owner s) then Revert "Not authorized"
  else if negb (authorizedContractors s contractor) then Revert "Not authorized"
  else Success tt (set_authorized s contractor false)
         [ContractorRevoked contractor].

Definition isAuthorizedContractor (contractor : address) (s : State) : bool :=
  authorizedContractors s contractor.

Definition createProject (m : Msg) (name description : string)
    (maxBudget deadline biddingDuration : Z) (s : State) : Outcome Z :=
  if negb (0 <? Z.of_nat (String.length name)) then Revert "Name required"
  else if negb (0 <? maxBudget) then Revert "Budget must be positive"
  else if negb (block_timestamp m <? deadline) then Revert "Deadline must be future"
  else if negb (0 <? biddingDuration) then Revert "Duration must be positive"
  else if MAX_UINT256 <? projectCount s + 1 then Panic
  else
    let projectCount' := projectCount s + 1 in
    let old := projects s projectCount' in
    if MAX_UINT256 <? block_timestamp m + biddingDuration then Panic
    else
      let project :=
        {| name := name; description := description; creator := sender m;
           maxBudget := maxBudget; deadline := deadline;
           biddingEndTime := block_timestamp m + biddingDuration;
           isActive := true; biddingClosed := false;
           bidders := bidders old; winner := 0; winningAmount := 0 |} in
      Success projectCount'
        {| owner := owner s; projectCount := projectCount';
           projects := upd (projects s) projectCount' project;
           bids := bids s;
           authorizedContractors := authorizedContractors s |}
        [ProjectCreated projectCount' (sender m) name].

Definition closeBidding (m : Msg) (projectId : Z) (s : State) : Outcome unit :=
  if negb (valid_id s projectId) then Revert "Invalid project ID"
  else
    let project := projects s projectId in
    if negb ((sender m =? creator project) || (biddingEndTime project <=? block_timestamp m))
    then Revert "Not project creator"
    else if biddingClosed project then Revert "Already closed"
    else
      Success tt
        (set_project s projectId
           {| name := name project; description := description project;
              creator := creator project; maxBudget := maxBudget project;
              deadline := deadline project;
              biddingEndTime := biddingEndTime project;
              isActive := isActive project; biddingClosed := true;
              bidders := bidders project; winner := winner project;
              winningAmount := winningAmount project |})
        [BiddingClosed projectId].

Section FHE.

(** [FHE.asEuint32], [FHE.lt] and [FHE.select]. *)
Variable asEuint32 : Z -> Z.
Variable FHE_lt : Z -> Z -> Z.
Variable FHE_select : Z -> Z -> Z -> Z.

Definition submitBid (m : Msg) (projectId bidAmount completionTime : Z)
    (proposal : string) (s : State) : Outcome unit :=
  if negb (authorizedContractors s (sender m)) then Revert "Not authorized contractor"
  else if negb (valid_id s projectId) then Revert "Invalid project ID"
  else
    let project := projects s projectId in
    if negb (isActive project) then Revert "Project not active"
    else if biddingClosed project then Revert "Bidding closed"
    else if negb (block_timestamp m <? biddingEndTime project) then Revert "Bidding period ended"
    else if submitted (bids s projectId (sender m)) then Revert "Already submitted"
    else if negb ((0 <? bidAmount) && (bidAmount <=? maxBudget project))
    then Revert "Invalid bid amount"
    else
      let encAmount := asEuint32 (uint32 bidAmount) in
      let encTime := asEuint32 (uint32 completionTime) in
      let bid := {| encryptedAmount := encAmount;
                    encryptedCompletionTime := encTime;
                    proposal := proposal; submitted := true;
                    timestamp := block_timestamp m |} in
      let project' :=
        {| name := name project; description := description project;
           creator := creator project; maxBudget := maxBudget project;
           deadline := deadline project;
           biddingEndTime := biddingEndTime project;
           isActive := isActive project; biddingClosed := biddingClosed project;
           bidders := bidders project ++ [sender m]; winner := winner project;
           winningAmount := winningAmount project |} in
      Success tt
        {| owner := owner s; projectCount := projectCount s;
           projects := upd (projects s) projectId project';
           bids := upd (bids s) projectId (upd (bids s projectId) (sender m) bid);
           authorizedContractors := authorizedContractors s |}
        [AllowThis encAmount; AllowThis encTime;
         Allow encAmount (sender m); Allow encTime (sender m);
         Allow encAmount (creator project); Allow encTime (creator project);
         BidSubmitted projectId (sender m)].

(** The loop of [evaluateBids] over the bidders. *)
Fixpoint evaluate_loop (bidsOf : address -> PrivateBid) (rest : list address)
    (bestBidder : address) (lowestAmount : Z) : address * Z :=
  match rest with
  | [] => (bestBidder, lowestAmount)
  | bidder :: rest' =>
      let bid := bidsOf bidder in
      let isLower := FHE_lt (encryptedAmount bid) lowestAmount in
      let lowestAmount' := FHE_select isLower (encryptedAmount bid) lowestAmount in
      let bestBidder' := if bestBidder =? 0 then bidder else bestBidder in
      evaluate_loop bidsOf rest' bestBidder' lowestAmount'
  end.

Definition evaluateBids (m : Msg) (projectId : Z) (s : State) : Outcome unit :=
  if negb (valid_id s projectId) then Revert "Invalid project ID"
  else
    let project := projects s projectId in
    if negb (sender m =? creator project) then Revert "Not project creator"
    else if negb (biddingClosed project) then Revert "Bidding not closed"
    else if negb (0 <? Z.of_nat (List.length (bidders project)))
    then Revert "No bids submitted"
    else
      let '(bestBidder, _) :=
        evaluate_loop (bids s projectId) (bidders project) 0 (asEuint32 MAX_UINT32) in
      if negb (bestBidder =? 0) then
        let winner' := nth 0 (bidders project) 0 in
        Success tt
          (set_project s projectId
             {| name := name project; description := description project;
                creator := creator project; maxBudget := maxBudget project;
                deadline := deadline project;
                biddingEndTime := biddingEndTime project;
                isActive := false; biddingClosed := biddingClosed project;
                bidders := bidders project; winner := winner';
                winningAmount := winningAmount project |})
          [WinnerSelected projectId winner']
      else Success tt s [].

(** [getBid]: the two amounts it returns are the constant 0. *)
Definition getBid (m : Msg) (projectId : Z) (bidder : address) (s : State)
  : Outcome (Z * Z * string * bool * Z) :=
  if negb (valid_id s projectId) then Revert "Invalid project ID"
  else
    let project := projects s projectId in
    if negb ((sender m =? creator project) || (sender m =? bidder))
    then Revert "Not authorized to view"
    else
      let bid := bids s projectId bidder in
      Success (0, 0, proposal bid, submitted bid, timestamp bid) s [].

Definition getProjectBidders (projectId : Z) (s : State) : Outcome (list address) :=
  if negb (valid_id s projectId) then Revert "Invalid project ID"
  else Success (bidders (projects s projectId)) s [].

(** The transactions that change the storage. *)
Inductive Call :=
| AuthorizeContractor (contractor : address)
| RevokeContractor (contractor : address)
| CreateProject (name description : string) (maxBudget deadline biddingDuration : Z)
| SubmitBid (projectId bidAmount completionTime : Z) (proposal : string)
| CloseBidding (projectId : Z)
| EvaluateBids (projectId : Z).

(** The storage after an outcome: a call that reverts changes nothing. *)
Definition storage_after {A : Type} (s : State) (o : Outcome A) : State :=
  match o with
  | Success _ s' _ => s'
  | Revert _ => s
  | Panic => s
  end.

Definition exec (s : State) (tx : Msg * Call) : State :=
  let '(m, call) := tx in
  match call with
  | AuthorizeContractor c => storage_after s (authorizeContractor m c s)
  | RevokeContractor c => storage_after s (revokeContractor m c s)
  | CreateProject n d b dl du => storage_after s (createProject m n d b dl du s)
  | SubmitBid p a t pr => storage_after s (submitBid m p a t pr s)
  | CloseBidding p => storage_after s (closeBidding m p s)
  | EvaluateBids p => storage_after s (evaluateBids m p s)
  end.

Definition execs (s : State) (txs : list (Msg * Call)) : State :=
  fold_left exec txs s.

End FHE.

(** What holds of the storage after any transactions. *)
Record invariant (s : State) : Prop := mkInvariant {
  inv_count : 0 <= projectCount s;
  inv_fresh : forall projectId a,
      valid_id s projectId = false -> submitted (bids s projectId a) = false;
  inv_nodup : forall projectId, NoDup (bidders (projects s projectId));
  inv_bidders : forall projectId a,
      In a (bidders (projects s projectId)) <->
      submitted (bids s projectId a) = true;
  inv_winner : forall projectId,
      winner (projects s projectId) = 0 \/
      In (winner (projects s projectId)) (bidders (projects s projectId))
}.

(** An FHE library for the examples: a handle is the value it hides. *)
Definition plain (x : Z) : Z := x.
Definition plain_lt (a b : Z) : Z := if a <? b then 1 else 0.
Definition plain_select (c a b : Z) : Z := if c =? 0 then b else a.

(** The events of an outcome. *)
Definition logs_of {A : Type} (o : Outcome A) : list Log :=
  match o with
  | Success _ _ logs => logs
  | Revert _ => []
  | Panic => []
  end.

(** The owner is account 100; the contractors are accounts 201 and 202. *)
Definition owner_at (t : Z) : Msg := {| sender := 100; block_timestamp := t |}.

Definition contractor_at (a : address) (t : Z) : Msg :=
  {| sender := a; block_timestamp := t |}.

(** Two contractors are authorised and a project is open for bids. *)
Definition example_open : State :=
  execs plain plain_lt plain_select (constructor (owner_at 999))
    [(owner_at 1000, AuthorizeContractor 201);
     (owner_at 1000, AuthorizeContractor 202);
     (owner_at 1000, CreateProject "Bridge" "A footbridge" (2 ^ 40) 5000 100)].

(** Contractor 201 has bid 900, then contractor 202 has bid 5, and the
    bidding has been closed. *)
Definition example_closed : State :=
  execs plain plain_lt plain_select example_open
    [(contractor_at 201 1010, SubmitBid 1 900 30 "first");
     (contractor_at 202 1020, SubmitBid 1 5 20 "second");
     (owner_at 1030, CloseBidding 1)].

End Bidding.

(** * Properties *)

Section ClientFacts.

Variable ext : External.

Lemma getPublicKey_spec (this : FhevmClient) (tr : trace) :
  getPublicKey ext this tr = (Ok "0x", this, tr ++ publicKey_events ext this tr).
Proof.
  unfold getPublicKey, publicKey_events, acl_of, bind, try_catch, get_this, call,
    emit, ret, throw, public_key_warning.
  destruct (getCode ext tr _) as [code|error]; cbn.
  - destruct (code =? "0x")%string; cbn; now rewrite <- ?app_assoc.
  - now rewrite <- app_assoc.
Qed.

Lemma initialize_when_initialized (this : FhevmClient) (tr : trace) :
  initialized this = true -> initialize ext this tr = (Ok tt, this, tr).
Proof.
  intros H. unfold initialize, bind, get_this. now rewrite H.
Qed.

Lemma initialize_network_fails (this : FhevmClient) (tr : trace) (error : Error) :
  initialized this = false ->
  getNetwork ext tr = Throw error ->
  initialize ext this tr
  = (Throw (initialize_failed error), this, tr ++ [GetNetwork]).
Proof.
  intros Hi Hn. unfold initialize, bind, get_this, try_catch, call, throw.
  now rewrite Hi, Hn.
Qed.

Lemma initialize_instance_fails (this : FhevmClient) (tr : trace)
    (network : Network) (error : Error) :
  initialized this = false ->
  getNetwork ext tr = Ok network ->
  let tr' := (tr ++ [GetNetwork]) ++ publicKey_events ext this (tr ++ [GetNetwork]) in
  createInstance ext tr' (params_of this network) = Throw error ->
  initialize ext this tr
  = (Throw (initialize_failed error), this,
     tr' ++ [CreateInstance (params_of this network)]).
Proof.
  intros Hi Hn tr' Hc. unfold initialize, get_this.
  unfold bind at 1. rewrite Hi.
  unfold try_catch, bind at 1, call at 1. rewrite Hn.
  unfold bind at 1. rewrite getPublicKey_spec.
  unfold bind at 1, call. fold tr'. unfold params_of in Hc. rewrite Hc.
  reflexivity.
Qed.

Lemma initialize_succeeds (this : FhevmClient) (tr : trace)
    (network : Network) (i : FhevmJsInstance) :
  initialized this = false ->
  getNetwork ext tr = Ok network ->
  let tr' := (tr ++ [GetNetwork]) ++ publicKey_events ext this (tr ++ [GetNetwork]) in
  createInstance ext tr' (params_of this network) = Ok i ->
  initialize ext this tr
  = (Ok tt, initialized_with this i,
     tr' ++ [CreateInstance (params_of this network)]).
Proof.
  intros Hi Hn tr' Hc. unfold initialize, get_this.
  unfold bind at 1. rewrite Hi.
  unfold try_catch, bind at 1, call at 1. rewrite Hn.
  unfold bind at 1. rewrite getPublicKey_spec.
  unfold bind at 1, call. fold tr'. unfold params_of in Hc. rewrite Hc.
  reflexivity.
Qed.

Lemma initialize_outcomes (this : FhevmClient) (tr : trace) :
  initialized this = false ->
  initialize_outcome ext this tr (initialize ext this tr).
Proof.
  intros Hi.
  destruct (getNetwork ext tr) as [network|error] eqn:Hn.
  - destruct (createInstance ext
      ((tr ++ [GetNetwork]) ++ publicKey_events ext this (tr ++ [GetNetwork]))
      (params_of this network)) as [i|error] eqn:Hc.
    + rewrite (initialize_succeeds this tr network i Hi Hn Hc).
      now apply Initialized.
    + rewrite (initialize_instance_fails this tr network error Hi Hn Hc).
      now apply InstanceFailed with (network := network).
  - rewrite (initialize_network_fails this tr error Hi Hn).
    now apply NetworkFailed.
Qed.


Lemma initialize_throw_unchanged (this this' : FhevmClient) (tr tr' : trace)
    (error : Error) :
  initialize ext this tr = (Throw error, this', tr') ->
  this' = this /\ initialized this = false.
Proof.
  intros H. destruct (initialized this) eqn:Hi.
  - rewrite (initialize_when_initialized this tr Hi) in H. discriminate.
  - pose proof (initialize_outcomes this tr Hi) as Ho. rewrite H in Ho.
    inversion Ho; subst; auto.
Qed.

Lemma initialize_ok_initialized (this this' : FhevmClient) (tr tr' : trace) :
  initialize ext this tr = (Ok tt, this', tr') -> initialized this' = true.
Proof.
  intros H. destruct (initialized this) eqn:Hi.
  - rewrite (initialize_when_initialized this tr Hi) in H. congruence.
  - pose proof (initialize_outcomes this tr Hi) as Ho. rewrite H in Ho.
    inversion Ho; subst; reflexivity.
Qed.

Lemma initialize_starts_with_getNetwork (this : FhevmClient) (tr : trace) :
  initialized this = false ->
  exists rest, snd (initialize ext this tr) = tr ++ GetNetwork :: rest.
Proof.
  intros Hi. destruct (initialize_outcomes this tr Hi); cbn [snd].
  - now exists [].
  - eexists. rewrite <- !app_assoc. reflexivity.
  - eexists. rewrite <- !app_assoc. reflexivity.
Qed.

Lemma not_ready_cases (this : FhevmClient) :
  ready this = false ->
  initialized this = false \/ instance this = None.
Proof.
  unfold ready. destruct (initialized this), (instance this); cbn; auto; discriminate.
Qed.

Lemma encrypt32_ready (this : FhevmClient) (inst : FhevmJsInstance)
    (tr : trace) (value : number) :
  initialized this = true ->
  instance this = Some inst ->
  encrypt32 ext value this tr
  = (match instance_encrypt32 ext tr inst value with
     | Ok encrypted => Ok {| data := encrypted; handles := [] |}
     | Throw error =>
         Throw (newError ("Failed to encrypt value: " ++ toString error)%string)
     end, this, tr ++ [InstanceEncrypt32 inst value]).
Proof.
  intros Hi Hs. unfold encrypt32, bind, get_this, try_catch, call, ret, throw.
  rewrite Hi, Hs. now destruct (instance_encrypt32 ext tr inst value).
Qed.

Lemma encrypt64_as_encrypt32 (this : FhevmClient) (tr : trace) (value : bigint) :
  encrypt64 ext value this tr = encrypt32 ext (Number value) this tr.
Proof. reflexivity. Qed.

Lemma encrypt32_not_ready (this : FhevmClient) (tr : trace) (value : number) :
  ready this = false ->
  encrypt32 ext value this tr = (Throw (newError NOT_INITIALIZED), this, tr).
Proof.
  intros H. unfold encrypt32, bind, get_this, throw.
  destruct (not_ready_cases this H) as [Hi|Hs]; rewrite ?Hi, ?Hs.
  - reflexivity.
  - now destruct (initialized this).
Qed.

End ClientFacts.

Lemma ready_cases (this : FhevmClient) :
  ready this = true ->
  initialized this = true /\ exists inst, instance this = Some inst.
Proof.
  unfold ready. destruct (initialized this), (instance this) as [inst|];
    cbn; try discriminate. intros _. split; [reflexivity | now exists inst].
Qed.

Lemma fresh_client_not_ready (config : FhevmConfig) :
  ready (createFhevmClient config) = false.
Proof. reflexivity. Qed.

Lemma failed_client_not_ready (ext : External) (this this' : FhevmClient)
    (tr tr' : trace) (error : Error) :
  initialize ext this tr = (Throw error, this', tr') -> ready this' = false.
Proof.
  intros H. destruct (initialize_throw_unchanged ext _ _ _ _ _ H) as [-> Hi].
  unfold ready. now rewrite Hi.
Qed.

Lemma sleeps_app (tr1 tr2 : trace) : sleeps (tr1 ++ tr2) = sleeps tr1 ++ sleeps tr2.
Proof. apply flat_map_app. Qed.

Lemma encrypt_calls_app (tr1 tr2 : trace) :
  encrypt_calls (tr1 ++ tr2) = encrypt_calls tr1 ++ encrypt_calls tr2.
Proof. apply flat_map_app. Qed.

Lemma getNetwork_calls_app (tr1 tr2 : trace) :
  getNetwork_calls (tr1 ++ tr2) = (getNetwork_calls tr1 + getNetwork_calls tr2)%nat.
Proof. unfold getNetwork_calls. now rewrite filter_app, length_app. Qed.

(** ** Encrypting before the client is ready *)

(** C1: on a client that is not ready (never initialised, or left so by a
    failed [initialize]), [encrypt32] and [encrypt64] throw the
    not-initialised error at once; the object and the trace of calls to the
    collaborators are as before, so nothing was asked of the provider or of
    the instance. *)
Theorem encrypt_not_ready_fails_fast (ext : External) (this : FhevmClient)
    (tr : trace) (value32 : number) (value64 : bigint) :
  ready this = false ->
  encrypt32 ext value32 this tr = (Throw (newError NOT_INITIALIZED), this, tr) /\
  encrypt64 ext value64 this tr = (Throw (newError NOT_INITIALIZED), this, tr).
Proof.
  intros H. split.
  - now apply encrypt32_not_ready.
  - rewrite encrypt64_as_encrypt32. now apply encrypt32_not_ready.
Qed.

Lemma encrypt_not_ready_fails_fast_witness :
  ready (createFhevmClient example_config) = false /\
  encrypt32 healthy (Number 7) (createFhevmClient example_config) []
  = (Throw (newError NOT_INITIALIZED), createFhevmClient example_config, []) /\
  encrypt64 healthy 7 (createFhevmClient example_config) []
  = (Throw (newError NOT_INITIALIZED), createFhevmClient example_config, []).
Proof.
  split; [reflexivity|].
  apply (encrypt_not_ready_fails_fast healthy (createFhevmClient example_config)
           [] (Number 7) 7).
  reflexivity.
Defined.

(** ** [initialize] twice *)

(** C5: when [initialize] has succeeded (or the client was initialised
    already), calling it again returns at once with the object and the trace
    unchanged: no call to any collaborator.  When it has failed, the object
    is as it was before the call and not initialised, and calling it again
    starts over with a new [getNetwork()] call. *)
Theorem initialize_idempotent (ext : External) (this this1 : FhevmClient)
    (tr tr1 : trace) (outcome : result unit) :
  initialize ext this tr = (outcome, this1, tr1) ->
  match outcome with
  | Ok _ => initialize ext this1 tr1 = (Ok tt, this1, tr1)
  | Throw _ =>
      this1 = this /\ initialized this1 = false /\
      exists rest, snd (initialize ext this1 tr1) = tr1 ++ GetNetwork :: rest
  end.
Proof.
  intros H. destruct outcome as [[]|error].
  - apply initialize_when_initialized.
    now apply (initialize_ok_initialized ext this this1 tr tr1).
  - destruct (initialize_throw_unchanged ext _ _ _ _ _ H) as [-> Hi].
    repeat split; auto. now apply initialize_starts_with_getNetwork.
Qed.

Lemma initialize_idempotent_witness :
  initialize healthy (createFhevmClient example_config) []
  = (Ok tt, ready_client,
     [GetNetwork; GetCode DEFAULT_ACL;
      CreateInstance (params_of (createFhevmClient example_config) sepolia_network)]) /\
  initialize healthy ready_client
    [GetNetwork; GetCode DEFAULT_ACL;
     CreateInstance (params_of (createFhevmClient example_config) sepolia_network)]
  = (Ok tt, ready_client,
     [GetNetwork; GetCode DEFAULT_ACL;
      CreateInstance (params_of (createFhevmClient example_config) sepolia_network)]).
Proof.
  assert (H : initialize healthy (createFhevmClient example_config) []
              = (Ok tt, ready_client,
                 [GetNetwork; GetCode DEFAULT_ACL;
                  CreateInstance (params_of (createFhevmClient example_config)
                                            sepolia_network)]))
    by reflexivity.
  split; [exact H|].
  exact (initialize_idempotent healthy _ _ _ _ _ H).
Defined.

(** After a failure the next call starts over, and succeeds when the
    network has come back. *)
Example initialize_again_after_failure :
  initialize recovering (createFhevmClient example_config) []
  = (Throw (newError "Failed to initialize fhEVM: Error: network down"),
     createFhevmClient example_config, [GetNetwork]) /\
  initialize recovering (createFhevmClient example_config) [GetNetwork]
  = (Ok tt, ready_client,
     [GetNetwork; GetNetwork; GetCode DEFAULT_ACL;
      CreateInstance (params_of (createFhevmClient example_config) sepolia_network)]).
Proof. split; reflexivity. Qed.

(** ** What an encrypt call returns *)

(** C10: whenever [encrypt32] or [encrypt64] succeeds, the [handles] of the
    [EncryptedInput] it returns are the empty array. *)
Theorem encrypt_returns_no_handles (ext : External) (this this' : FhevmClient)
    (tr tr' : trace) (value32 : number) (value64 : bigint) (r : EncryptedInput) :
  encrypt32 ext value32 this tr = (Ok r, this', tr') \/
  encrypt64 ext value64 this tr = (Ok r, this', tr') ->
  handles r = [].
Proof.
  assert (H32 : forall value, encrypt32 ext value this tr = (Ok r, this', tr') ->
                              handles r = []).
  { intros value H. destruct (ready this) eqn:Hr.
    - destruct (ready_cases this Hr) as [Hi [inst Hs]].
      rewrite (encrypt32_ready ext this inst tr value Hi Hs) in H.
      destruct (instance_encrypt32 ext tr inst value); inversion H; reflexivity.
    - rewrite (encrypt32_not_ready ext this tr value Hr) in H. discriminate. }
  intros [H|H].
  - now apply (H32 value32).
  - rewrite encrypt64_as_encrypt32 in H. now apply (H32 (Number value64)).
Qed.

Lemma encrypt_returns_no_handles_witness :
  encrypt32 healthy (Number 1000) ready_client []
  = (Ok {| data := sample_ciphertext; handles := [] |}, ready_client,
     [InstanceEncrypt32 (Instance 0) (Number 1000)]) /\
  handles {| data := sample_ciphertext; handles := [] |} = [].
Proof.
  assert (H : encrypt32 healthy (Number 1000) ready_client []
              = (Ok {| data := sample_ciphertext; handles := [] |}, ready_client,
                 [InstanceEncrypt32 (Instance 0) (Number 1000)]))
    by reflexivity.
  split; [exact H|].
  exact (encrypt_returns_no_handles healthy ready_client ready_client [] _
           (Number 1000) 1000 _ (or_introl H)).
Defined.

(** ** The range of the value given to [encrypt32] *)

(** C6, as stated, fails: on a ready client [encrypt32(2^32)] does not fail
    without a call.  The value, which is outside of the 32-bit range, is
    handed to the instance, and the call succeeds when the instance accepts
    it. *)
Lemma encrypt32_range_counterexample :
  in_uint32_range (Number (2 ^ 32)) = false /\
  encrypt32 healthy (Number (2 ^ 32)) ready_client []
  = (Ok {| data := sample_ciphertext; handles := [] |}, ready_client,
     [InstanceEncrypt32 (Instance 0) (Number (2 ^ 32))]) /\
  ~ (exists error,
        encrypt32 healthy (Number (2 ^ 32)) ready_client []
        = (Throw error, ready_client, [])).
Proof.
  split; [reflexivity|]. split; [reflexivity|].
  intros [error H]. discriminate H.
Qed.

(** C6, amended: [encrypt32] checks no range.  On a ready client, for every
    number [value] (0, 2^32 - 1 and 2^32 alike), it makes exactly one call
    [instance.encrypt32(value)]; it returns the bytes of that call with no
    handles when the call succeeds, and throws when the call throws. *)
Theorem encrypt32_value_unchecked (ext : External) (this : FhevmClient)
    (inst : FhevmJsInstance) (tr : trace) (value : number) :
  initialized this = true ->
  instance this = Some inst ->
  snd (encrypt32 ext value this tr) = tr ++ [InstanceEncrypt32 inst value] /\
  (forall encrypted,
      instance_encrypt32 ext tr inst value = Ok encrypted ->
      fst (fst (encrypt32 ext value this tr))
      = Ok {| data := encrypted; handles := [] |}) /\
  (forall error,
      instance_encrypt32 ext tr inst value = Throw error ->
      exists error', fst (fst (encrypt32 ext value this tr)) = Throw error').
Proof.
  intros Hi Hs. rewrite (encrypt32_ready ext this inst tr value Hi Hs). cbn.
  split; [reflexivity|]. split.
  - intros encrypted ->. reflexivity.
  - intros error ->. eexists. reflexivity.
Qed.

Lemma encrypt32_value_unchecked_witness :
  snd (encrypt32 healthy (Number (2 ^ 32 - 1)) ready_client [])
  = [] ++ [InstanceEncrypt32 (Instance 0) (Number (2 ^ 32 - 1))] /\
  (forall encrypted,
      instance_encrypt32 healthy [] (Instance 0) (Number (2 ^ 32 - 1)) = Ok encrypted ->
      fst (fst (encrypt32 healthy (Number (2 ^ 32 - 1)) ready_client []))
      = Ok {| data := encrypted; handles := [] |}) /\
  (forall error,
      instance_encrypt32 healthy [] (Instance 0) (Number (2 ^ 32 - 1)) = Throw error ->
      exists error',
        fst (fst (encrypt32 healthy (Number (2 ^ 32 - 1)) ready_client []))
        = Throw error').
Proof.
  apply (encrypt32_value_unchecked healthy ready_client (Instance 0) []
           (Number (2 ^ 32 - 1))); reflexivity.
Defined.

(** The two ends of the range succeed with an instance that accepts them. *)
Example encrypt32_range_ends :
  encrypt32 healthy (Number 0) ready_client []
  = (Ok {| data := sample_ciphertext; handles := [] |}, ready_client,
     [InstanceEncrypt32 (Instance 0) (S754_zero false)]) /\
  encrypt32 healthy (Number (2 ^ 32 - 1)) ready_client []
  = (Ok {| data := sample_ciphertext; handles := [] |}, ready_client,
     [InstanceEncrypt32 (Instance 0) (Number (2 ^ 32 - 1))]).
Proof. split; reflexivity. Qed.

(** ** A failing encrypt call *)

(** C4, as stated, fails: with an instance whose first [encrypt32] call
    fails and whose second would succeed, the client gives up after the one
    call, with a plain [Error]; the same call under [retryWithBackoff]
    succeeds at the second attempt. *)
Lemma encrypt_retry_counterexample :
  encrypt32 flaky (Number 42) ready_client []
  = (Throw (newError "Failed to encrypt value: Error: timeout"), ready_client,
     [InstanceEncrypt32 (Instance 0) (Number 42)]) /\
  instance_encrypt32 flaky [InstanceEncrypt32 (Instance 0) (Number 42)]
    (Instance 0) (Number 42) = Ok sample_ciphertext /\
  retryWithBackoff (encrypt32 flaky (Number 42)) 3 1000 ready_client []
  = (Ok {| data := sample_ciphertext; handles := [] |}, ready_client,
     [InstanceEncrypt32 (Instance 0) (Number 42); Sleep 1000;
      InstanceEncrypt32 (Instance 0) (Number 42)]).
Proof. repeat split; reflexivity. Qed.

(** C4, amended: on a ready client an encrypt request makes its call to the
    instance once and sleeps never.  When that call throws [cause], the
    request throws [Error("Failed to encrypt value: " + cause)] at once: the
    cause is kept as text in the message, and no number of attempts is
    reported. *)
Theorem encrypt_failure_surfaces_at_once (ext : External) (this : FhevmClient)
    (inst : FhevmJsInstance) (tr : trace) (value32 : number) (value64 : bigint) :
  initialized this = true ->
  instance this = Some inst ->
  (forall cause,
      instance_encrypt32 ext tr inst value32 = Throw cause ->
      encrypt32 ext value32 this tr
      = (Throw (newError ("Failed to encrypt value: " ++ toString cause)%string),
         this, tr ++ [InstanceEncrypt32 inst value32])) /\
  (forall cause,
      instance_encrypt32 ext tr inst (Number value64) = Throw cause ->
      encrypt64 ext value64 this tr
      = (Throw (newError ("Failed to encrypt value: " ++ toString cause)%string),
         this, tr ++ [InstanceEncrypt32 inst (Number value64)])) /\
  encrypt_calls (snd (encrypt32 ext value32 this tr))
  = encrypt_calls tr ++ [(inst, value32)] /\
  encrypt_calls (snd (encrypt64 ext value64 this tr))
  = encrypt_calls tr ++ [(inst, Number value64)] /\
  sleeps (snd (encrypt32 ext value32 this tr)) = sleeps tr /\
  sleeps (snd (encrypt64 ext value64 this tr)) = sleeps tr.
Proof.
  intros Hi Hs. rewrite encrypt64_as_encrypt32.
  rewrite !(encrypt32_ready ext this inst tr _ Hi Hs). cbn [snd].
  rewrite !encrypt_calls_app, !sleeps_app. cbn.
  rewrite !app_nil_r.
  repeat split; try reflexivity; intros cause ->; reflexivity.
Qed.

Lemma encrypt_failure_surfaces_at_once_witness :
  (forall cause,
      instance_encrypt32 offline [] (Instance 0) (Number 42) = Throw cause ->
      encrypt32 offline (Number 42) ready_client []
      = (Throw (newError ("Failed to encrypt value: " ++ toString cause)%string),
         ready_client, [] ++ [InstanceEncrypt32 (Instance 0) (Number 42)])) /\
  (forall cause,
      instance_encrypt32 offline [] (Instance 0) (Number 42) = Throw cause ->
      encrypt64 offline 42 ready_client []
      = (Throw (newError ("Failed to encrypt value: " ++ toString cause)%string),
         ready_client, [] ++ [InstanceEncrypt32 (Instance 0) (Number 42)])) /\
  encrypt_calls (snd (encrypt32 offline (Number 42) ready_client []))
  = encrypt_calls [] ++ [(Instance 0, Number 42)] /\
  encrypt_calls (snd (encrypt64 offline 42 ready_client []))
  = encrypt_calls [] ++ [(Instance 0, Number 42)] /\
  sleeps (snd (encrypt32 offline (Number 42) ready_client [])) = sleeps [] /\
  sleeps (snd (encrypt64 offline 42 ready_client [])) = sleeps [].
Proof.
  apply (encrypt_failure_surfaces_at_once offline ready_client (Instance 0) []
           (Number 42) 42); reflexivity.
Defined.

(** ** Failures of [initialize] *)

(** C7, as stated, fails: when reading the code of the ACL contract throws,
    [initialize] succeeds all the same, having given [createInstance] the
    placeholder public key. *)
Lemma initialize_swallows_counterexample :
  getCode no_acl [GetNetwork] DEFAULT_ACL = Throw (newError "missing response") /\
  initialize no_acl (createFhevmClient example_config) []
  = (Ok tt, ready_client,
     [GetNetwork; GetCode DEFAULT_ACL; public_key_warning;
      CreateInstance {| p_chainId := Number 11155111;
                        p_publicKey := "0x";
                        p_gatewayUrl := None |}]) /\
  ~ (exists error this' tr',
        initialize no_acl (createFhevmClient example_config) []
        = (Throw error, this', tr')).
Proof.
  split; [reflexivity|]. split; [reflexivity|].
  intros (error & this' & tr' & H). discriminate H.
Qed.

(** C7, amended: on a client that is not initialised, a failure of
    [getNetwork()] or of [createInstance()] with [cause] surfaces as
    [Error("Failed to initialize fhEVM: " + cause)], the object being left as
    it was; every error that [initialize] throws is of that form, with one of
    these two causes.  [getPublicKey] never throws: whatever reading the
    contract code gives, it returns the placeholder key. *)
Theorem initialize_failure_surfaces (ext : External) (this : FhevmClient)
    (tr : trace) :
  initialized this = false ->
  (forall cause,
      getNetwork ext tr = Throw cause ->
      initialize ext this tr
      = (Throw (initialize_failed cause), this, tr ++ [GetNetwork])) /\
  (forall network cause,
      getNetwork ext tr = Ok network ->
      createInstance ext
        ((tr ++ [GetNetwork]) ++ publicKey_events ext this (tr ++ [GetNetwork]))
        (params_of this network) = Throw cause ->
      fst (initialize ext this tr) = (Throw (initialize_failed cause), this)) /\
  (forall error this' tr',
      initialize ext this tr = (Throw error, this', tr') ->
      this' = this /\
      exists cause,
        error = initialize_failed cause /\
        (getNetwork ext tr = Throw cause \/
         exists network tr0,
           getNetwork ext tr = Ok network /\
           createInstance ext tr0 (params_of this network) = Throw cause)) /\
  (forall tr0,
      getPublicKey ext this tr0
      = (Ok "0x", this, tr0 ++ publicKey_events ext this tr0)).
Proof.
  intros Hi. split; [|split; [|split]].
  - intros cause Hn. now apply initialize_network_fails.
  - intros network cause Hn Hc.
    now rewrite (initialize_instance_fails ext this tr network cause Hi Hn Hc).
  - intros error this' tr' H.
    pose proof (initialize_outcomes ext this tr Hi) as Ho. rewrite H in Ho.
    inversion Ho; subst.
    + split; [reflexivity|]. exists error0. auto.
    + split; [reflexivity|]. exists error0. split; [reflexivity|].
      right. eauto.
  - intros tr0. apply getPublicKey_spec.
Qed.

Lemma initialize_failure_surfaces_witness :
  initialized (createFhevmClient example_config) = false /\
  initialize offline (createFhevmClient example_config) []
  = (Throw (initialize_failed (failure [])), createFhevmClient example_config,
     [GetNetwork]).
Proof.
  split; [reflexivity|].
  exact (proj1 (initialize_failure_surfaces offline
                  (createFhevmClient example_config) [] eq_refl)
           (failure []) eq_refl).
Defined.

(** ** Calls of [initialize] in flight together *)

Section Tasks.

Variable ext : External.

(** A call of [initialize] resumed on its own until it is done does what the
    sequential reading of the method does. *)
Lemma initialize_as_task (this : FhevmClient) (tr : trace) :
  exists outcome,
    tasks (run ext alone (idle this tr)) = [Done outcome] /\
    initialize ext this tr
    = (outcome, shared (run ext alone (idle this tr)),
       log (run ext alone (idle this tr))).
Proof.
  destruct (initialized this) eqn:Hi.
  - exists (Ok tt). rewrite (initialize_when_initialized ext this tr Hi).
    unfold alone, run, idle. cbn. unfold initialize_start. rewrite Hi. cbn.
    auto.
  - destruct (initialize_outcomes ext this tr Hi)
      as [error Hn|network error Hn Hc|network i Hn Hc];
      unfold alone, run, idle; cbn; unfold initialize_start; rewrite Hi; cbn;
      rewrite Hn; cbn.
    + eauto.
    + unfold publicKey_events, acl_of, params_of in *.
      destruct (getCode ext (tr ++ [GetNetwork]) _) as [code|error'];
        cbn in *; [destruct (code =? "0x")%string|]; cbn in *;
        rewrite <- ?app_assoc in *; cbn in *; rewrite Hc; cbn;
        eexists; split; reflexivity.
    + unfold publicKey_events, acl_of, params_of in *.
      destruct (getCode ext (tr ++ [GetNetwork]) _) as [code|error'];
        cbn in *; [destruct (code =? "0x")%string|]; cbn in *;
        rewrite <- ?app_assoc in *; cbn in *; rewrite Hc; cbn;
        eexists; split; reflexivity.
Qed.

Lemma resume_keeps_getNetwork_calls (t : init_task) (this : FhevmClient) (tr : trace) :
  getNetwork_calls (snd (initialize_resume ext t this tr)) = getNetwork_calls tr.
Proof.
  destruct t as [[network|error]|c [code|error]|c publicKey|[i|error]|outcome];
    cbn; try reflexivity;
    try (destruct (code =? "0x")%string; cbn);
    unfold getNetwork_calls; rewrite ?filter_app, ?length_app; cbn; lia.
Qed.

Lemma step_resume_keeps_getNetwork_calls (k : nat) (p : pool) :
  getNetwork_calls (log (step ext (Resume k) p)) = getNetwork_calls (log p).
Proof.
  cbn. destruct (nth_error (tasks p) k) as [t|]; [|reflexivity].
  pose proof (resume_keeps_getNetwork_calls t (shared p) (log p)) as H.
  destruct (initialize_resume ext t (shared p) (log p)) as [[t' this'] tr'].
  exact H.
Qed.

Lemma run_resumes_keeps_getNetwork_calls (schedule : list action) (p : pool) :
  forallb is_Resume schedule = true ->
  getNetwork_calls (log (run ext schedule p)) = getNetwork_calls (log p).
Proof.
  revert p. induction schedule as [|a schedule IH]; intros p H; [reflexivity|].
  cbn in H. apply andb_prop in H. destruct H as [Ha Hs].
  destruct a as [|k]; [discriminate|].
  change (run ext (Resume k :: schedule) p)
    with (run ext schedule (step ext (Resume k) p)).
  rewrite (IH _ Hs). apply step_resume_keeps_getNetwork_calls.
Qed.

Lemma run_calls (n : nat) (p : pool) :
  initialized (shared p) = false ->
  getNetwork_calls (log (run ext (repeat CallInitialize n) p))
  = (getNetwork_calls (log p) + n)%nat /\
  shared (run ext (repeat CallInitialize n) p) = shared p /\
  List.length (tasks (run ext (repeat CallInitialize n) p))
  = (List.length (tasks p) + n)%nat.
Proof.
  revert p. induction n as [|n IH]; intros p Hi.
  - cbn. auto with arith.
  - change (run ext (repeat CallInitialize (S n)) p)
      with (run ext (repeat CallInitialize n) (step ext CallInitialize p)).
    assert (Hstep : step ext CallInitialize p
                    = {| tasks := tasks p ++ [AwaitNetwork (getNetwork ext (log p))];
                         shared := shared p;
                         log := log p ++ [GetNetwork] |}).
    { cbn. unfold initialize_start. now rewrite Hi. }
    rewrite Hstep.
    set (p' := {| tasks := tasks p ++ [AwaitNetwork (getNetwork ext (log p))];
                  shared := shared p;
                  log := log p ++ [GetNetwork] |}).
    destruct (IH p' Hi) as (Hc & Hs & Hl).
    rewrite Hc, Hs, Hl. unfold p'. cbn [log shared tasks].
    rewrite getNetwork_calls_app, length_app. cbn.
    repeat split; lia.
Qed.

Lemma publicKey_events_no_getNetwork (this : FhevmClient) (tr : trace) :
  getNetwork_calls (publicKey_events ext this tr) = 0%nat.
Proof.
  unfold publicKey_events.
  destruct (getCode ext tr (acl_of this)) as [code|error]; cbn;
    [destruct (code =? "0x")%string|]; reflexivity.
Qed.

Lemma initialize_one_getNetwork (this : FhevmClient) (tr : trace) :
  initialized this = false ->
  getNetwork_calls (snd (initialize ext this tr)) = (getNetwork_calls tr + 1)%nat.
Proof.
  intros Hi. destruct (initialize_outcomes ext this tr Hi); cbn [snd];
    rewrite ?getNetwork_calls_app, ?publicKey_events_no_getNetwork; cbn; lia.
Qed.

Lemma FhevmProvider_init_one_getNetwork (config : FhevmConfig)
    (st : FhevmContextValue) (tr : trace) :
  getNetwork_calls (snd (FhevmProvider_init ext config st tr))
  = (getNetwork_calls tr + 1)%nat.
Proof.
  unfold FhevmProvider_init.
  pose proof (initialize_one_getNetwork (createFhevmClient config) tr eq_refl) as H.
  destruct (initialize ext (createFhevmClient config) tr) as [[[[]|err] c] tr'];
    exact H.
Qed.

Lemma FhevmProvider_effects_getNetwork (config : FhevmConfig) (n : nat)
    (st : FhevmContextValue) (tr : trace) :
  getNetwork_calls (snd (FhevmProvider_effects ext config n st tr))
  = (getNetwork_calls tr + n)%nat.
Proof.
  revert st tr. induction n as [|n IH]; intros st tr;
    cbn [FhevmProvider_effects snd].
  - lia.
  - pose proof (FhevmProvider_init_one_getNetwork config st tr) as H.
    destruct (FhevmProvider_init ext config st tr) as [st' tr'].
    rewrite IH. cbn [snd] in H. lia.
Qed.

End Tasks.

(** C9, as stated, fails: five calls of [initialize] made on one client
    before the first has completed make five [getNetwork()] calls, and still
    five once all have run to their end; five runs of the effect of
    [FhevmProvider] make five as well. *)
Lemma initialize_in_flight_counterexample :
  getNetwork_calls
    (log (run healthy (repeat CallInitialize 5)
            (idle (createFhevmClient example_config) []))) = 5%nat /\
  tasks (run healthy (repeat CallInitialize 5 ++ round_robin5)
           (idle (createFhevmClient example_config) []))
  = repeat (Done (Ok tt)) 5 /\
  getNetwork_calls
    (log (run healthy (repeat CallInitialize 5 ++ round_robin5)
            (idle (createFhevmClient example_config) []))) = 5%nat /\
  getNetwork_calls
    (snd (FhevmProvider_effects healthy example_config 5 FhevmContext_default []))
  = 5%nat /\
  getNetwork_calls
    (log (run healthy (repeat CallInitialize 5)
            (idle (createFhevmClient example_config) []))) <> 1%nat.
Proof. repeat split; try reflexivity. discriminate. Qed.

(** ** Retry with backoff *)

Section Retry.

Context {A : Type}.
Variable fn : M A.
Variable maxRetries : nat.
Variable baseDelay : Z.

Lemma retry_from_ok (retriesLeft attemptNumber : nat)
    (this this' : FhevmClient) (tr tr' : trace) (a : A) :
  fn this tr = (Ok a, this', tr') ->
  retry_from fn maxRetries baseDelay retriesLeft attemptNumber this tr
  = (Ok a, this', tr').
Proof.
  intros H. destruct retriesLeft; cbn [retry_from]; unfold try_catch;
    now rewrite H.
Qed.

Lemma retry_from_exhausted (retriesLeft attemptNumber : nat)
    (this this' : FhevmClient) (tr tr' : trace) (error : Error) :
  fn this tr = (Throw error, this', tr') ->
  (maxRetries < attemptNumber)%nat ->
  retry_from fn maxRetries baseDelay retriesLeft attemptNumber this tr
  = (Throw error, this', tr').
Proof.
  intros H Hn. apply Nat.ltb_lt in Hn.
  destruct retriesLeft; cbn [retry_from]; unfold try_catch, RetryPolicy;
    now rewrite H, Hn.
Qed.

Lemma retry_from_again (retriesLeft attemptNumber : nat)
    (this this' : FhevmClient) (tr tr' : trace) (error : Error) :
  fn this tr = (Throw error, this', tr') ->
  (attemptNumber <= maxRetries)%nat ->
  retry_from fn maxRetries baseDelay (S retriesLeft) attemptNumber this tr
  = retry_from fn maxRetries baseDelay retriesLeft (S attemptNumber) this'
      (tr' ++ [Sleep (baseDelay * 2 ^ (Z.of_nat attemptNumber - 1))]).
Proof.
  intros H Hn. apply Nat.ltb_ge in Hn.
  cbn [retry_from]. unfold try_catch at 1, RetryPolicy. rewrite H, Hn.
  reflexivity.
Qed.

Lemma retry_from_sleeps (retriesLeft attemptNumber : nat)
    (this : FhevmClient) (tr : trace) :
  always_fails fn ->
  quiet fn ->
  (attemptNumber + retriesLeft = maxRetries + 1)%nat ->
  sleeps (snd (retry_from fn maxRetries baseDelay retriesLeft attemptNumber this tr))
  = sleeps tr ++ backoff_delays baseDelay attemptNumber retriesLeft.
Proof.
  intros Hf Hq. revert attemptNumber this tr.
  induction retriesLeft as [|r IH]; intros n this tr Hn;
    destruct (Hf this tr) as (error & this' & tr' & H);
    pose proof (Hq this tr) as Hs; rewrite H in Hs; cbn [snd] in Hs.
  - rewrite (retry_from_exhausted 0 n _ _ _ _ _ H) by lia.
    cbn [snd]. unfold backoff_delays. cbn. now rewrite app_nil_r.
  - rewrite (retry_from_again r n _ _ _ _ _ H) by lia.
    rewrite IH by lia. rewrite sleeps_app, Hs. unfold backoff_delays.
    cbn [seq map sleeps flat_map]. now rewrite <- app_assoc.
Qed.

End Retry.

Lemma backoff_delays_nth (baseDelay : Z) (from count k : nat) :
  (k < count)%nat ->
  nth_error (backoff_delays baseDelay from count) k
  = Some (baseDelay * 2 ^ (Z.of_nat (from + k) - 1)).
Proof.
  intros Hk. unfold backoff_delays.
  rewrite nth_error_map, nth_error_seq.
  apply Nat.ltb_lt in Hk. now rewrite Hk.
Qed.

Lemma encrypt32_quiet (ext : External) (value : number) : quiet (encrypt32 ext value).
Proof.
  intros this tr. destruct (ready this) eqn:Hr.
  - destruct (ready_cases this Hr) as [Hi [inst Hs]].
    rewrite (encrypt32_ready ext this inst tr value Hi Hs). cbn [snd].
    rewrite sleeps_app. cbn. now rewrite app_nil_r.
  - now rewrite (encrypt32_not_ready ext this tr value Hr).
Qed.

Lemma encrypt32_offline_always_fails (value : number) :
  always_fails (encrypt32 offline value).
Proof.
  intros this tr. destruct (ready this) eqn:Hr.
  - destruct (ready_cases this Hr) as [Hi [inst Hs]].
    rewrite (encrypt32_ready offline this inst tr value Hi Hs). cbn. eauto.
  - rewrite (encrypt32_not_ready offline this tr value Hr). eauto.
Qed.

(** C2: for a base delay [d > 0] and an attempt [n >= 1] that is not past
    exhaustion ([n <= maxRetries]), the policy answers the delay
    [d * 2^(n-1)] after the failure of attempt [n]; the loop sleeps exactly
    that long between attempt [n] and attempt [n+1]; in a run where every
    attempt fails, the [n]-th sleep of the run is [d * 2^(n-1)]; and the
    initial try is made at once, on the state the utility was called in, so
    that a first success returns with no sleep at all. *)
Theorem backoff_law (d : Z) (n maxRetries : nat) :
  0 < d ->
  (1 <= n <= maxRetries)%nat ->
  RetryPolicy n maxRetries d = RetryAfter (d * 2 ^ (Z.of_nat n - 1)) /\
  0 < d * 2 ^ (Z.of_nat n - 1) /\
  (forall (A : Type) (fn : M A) retriesLeft this tr error this' tr',
      fn this tr = (Throw error, this', tr') ->
      retry_from fn maxRetries d (S retriesLeft) n this tr
      = retry_from fn maxRetries d retriesLeft (S n) this'
          (tr' ++ [Sleep (d * 2 ^ (Z.of_nat n - 1))])) /\
  (forall (A : Type) (fn : M A) this tr,
      always_fails fn -> quiet fn ->
      nth_error (sleeps (snd (retryWithBackoff fn maxRetries d this tr)))
                (List.length (sleeps tr) + (n - 1))
      = Some (d * 2 ^ (Z.of_nat n - 1))) /\
  (forall (A : Type) (fn : M A) this tr a this' tr',
      fn this tr = (Ok a, this', tr') ->
      retryWithBackoff fn maxRetries d this tr = (Ok a, this', tr')).
Proof.
  intros Hd [Hn1 Hn2]. split; [|split; [|split; [|split]]].
  - unfold RetryPolicy. apply Nat.ltb_ge in Hn2. now rewrite Hn2.
  - apply Z.mul_pos_pos; [exact Hd|]. apply Z.pow_pos_nonneg; lia.
  - intros A fn r this tr error this' tr' H.
    exact (retry_from_again fn maxRetries d r n _ _ _ _ _ H Hn2).
  - intros A fn this tr Hf Hq. unfold retryWithBackoff.
    rewrite (retry_from_sleeps fn maxRetries d maxRetries 1 this tr Hf Hq)
      by lia.
    rewrite nth_error_app2 by lia.
    replace (List.length (sleeps tr) + (n - 1) - List.length (sleeps tr))%nat
      with (n - 1)%nat by lia.
    rewrite backoff_delays_nth by lia.
    now replace (1 + (n - 1))%nat with n by lia.
  - intros A fn this tr a this' tr' H.
    exact (retry_from_ok fn maxRetries d maxRetries 1 _ _ _ _ _ H).
Qed.

Lemma backoff_law_witness :
  RetryPolicy 3 3 1000 = RetryAfter (1000 * 2 ^ (Z.of_nat 3 - 1)) /\
  nth_error
    (sleeps (snd (retryWithBackoff (encrypt32 offline (Number 42)) 3 1000
                    ready_client [])))
    (List.length (sleeps []) + (3 - 1))
  = Some (1000 * 2 ^ (Z.of_nat 3 - 1)).
Proof.
  assert (Hd : 0 < 1000) by reflexivity.
  assert (Hn : (1 <= 3 <= 3)%nat) by (split; repeat constructor).
  destruct (backoff_law 1000 3 3 Hd Hn) as (Hpolicy & _ & _ & Hsleep & _).
  split; [exact Hpolicy|].
  exact (Hsleep _ (encrypt32 offline (Number 42)) ready_client []
           (encrypt32_offline_always_fails (Number 42))
           (encrypt32_quiet offline (Number 42))).
Defined.

(** With a base delay of 1000 ms and three retries, the delays before
    attempts 2, 3 and 4 are 1000 ms, 2000 ms and 4000 ms. *)
Example backoff_delays_1000 :
  sleeps (snd (retryWithBackoff (encrypt32 offline (Number 42))
                 DEFAULT_MAX_RETRIES DEFAULT_BASE_DELAY ready_client []))
  = [1000; 2000; 4000] /\
  RetryPolicy 1 3 1000 = RetryAfter 1000 /\
  RetryPolicy 2 3 1000 = RetryAfter 2000 /\
  RetryPolicy 3 3 1000 = RetryAfter 4000 /\
  RetryPolicy 4 3 1000 = Exhausted.
Proof. repeat split; reflexivity. Qed.

(** C3: with [maxRetries = 3], when the operation fails at the initial try
    and at each of the three retries (each made on the state the failure
    before it left, after the sleep), the utility stops there: its outcome is
    the error of the fourth attempt, as thrown, and its final state is the
    one the fourth attempt left.  Four attempts are made, no fifth. *)
Theorem retry_exhaustion {A : Type} (fn : M A) (d : Z)
    (this this1 this2 this3 this4 : FhevmClient) (tr tr1 tr2 tr3 tr4 : trace)
    (e1 e2 e3 e4 : Error) :
  fn this tr = (Throw e1, this1, tr1) ->
  fn this1 (tr1 ++ [Sleep d]) = (Throw e2, this2, tr2) ->
  fn this2 (tr2 ++ [Sleep (2 * d)]) = (Throw e3, this3, tr3) ->
  fn this3 (tr3 ++ [Sleep (4 * d)]) = (Throw e4, this4, tr4) ->
  retryWithBackoff fn 3 d this tr = (Throw e4, this4, tr4).
Proof.
  intros H1 H2 H3 H4. unfold retryWithBackoff.
  rewrite (retry_from_again fn 3 d 2 1 _ _ _ _ _ H1) by lia.
  replace (d * 2 ^ (Z.of_nat 1 - 1)) with d
    by (change (2 ^ (Z.of_nat 1 - 1)) with 1; lia).
  rewrite (retry_from_again fn 3 d 1 2 _ _ _ _ _ H2) by lia.
  replace (d * 2 ^ (Z.of_nat 2 - 1)) with (2 * d)
    by (change (2 ^ (Z.of_nat 2 - 1)) with 2; lia).
  rewrite (retry_from_again fn 3 d 0 3 _ _ _ _ _ H3) by lia.
  replace (d * 2 ^ (Z.of_nat 3 - 1)) with (4 * d)
    by (change (2 ^ (Z.of_nat 3 - 1)) with 4; lia).
  apply (retry_from_exhausted fn 3 d 0 4 _ _ _ _ _ H4). lia.
Qed.

Lemma retry_exhaustion_witness :
  retryWithBackoff (encrypt32 offline (Number 42)) 3 1000 ready_client []
  = (Throw (newError "Failed to encrypt value: Error: 6"), ready_client,
     [InstanceEncrypt32 (Instance 0) (Number 42); Sleep 1000;
      InstanceEncrypt32 (Instance 0) (Number 42); Sleep 2000;
      InstanceEncrypt32 (Instance 0) (Number 42); Sleep 4000;
      InstanceEncrypt32 (Instance 0) (Number 42)]).
Proof.
  apply (retry_exhaustion (encrypt32 offline (Number 42)) 1000
           ready_client ready_client ready_client ready_client ready_client
           []
           [InstanceEncrypt32 (Instance 0) (Number 42)]
           [InstanceEncrypt32 (Instance 0) (Number 42); Sleep 1000;
            InstanceEncrypt32 (Instance 0) (Number 42)]
           [InstanceEncrypt32 (Instance 0) (Number 42); Sleep 1000;
            InstanceEncrypt32 (Instance 0) (Number 42); Sleep 2000;
            InstanceEncrypt32 (Instance 0) (Number 42)]
           [InstanceEncrypt32 (Instance 0) (Number 42); Sleep 1000;
            InstanceEncrypt32 (Instance 0) (Number 42); Sleep 2000;
            InstanceEncrypt32 (Instance 0) (Number 42); Sleep 4000;
            InstanceEncrypt32 (Instance 0) (Number 42)]
           (newError "Failed to encrypt value: Error: 0")
           (newError "Failed to encrypt value: Error: 2")
           (newError "Failed to encrypt value: Error: 4")
           (newError "Failed to encrypt value: Error: 6"));
    reflexivity.
Defined.

(** ** The number handed over by [encrypt64] *)

Lemma digits2_pos_size (p : positive) : digits2_pos p = Pos.size p.
Proof. induction p; cbn; congruence. Qed.

Lemma iter_xO_value (p k : positive) : Zpos (Pos.iter xO p k) = Zpos p * 2 ^ Zpos k.
Proof.
  induction k as [|k IH] using Pos.peano_ind.
  - cbn. lia.
  - rewrite Pos.iter_succ, Pos2Z.inj_succ, Z.pow_succ_r by lia.
    rewrite Pos2Z.inj_xO, IH. lia.
Qed.

Lemma iter_xO_digits (p k : positive) :
  Zpos (digits2_pos (Pos.iter xO p k)) = Zpos (digits2_pos p) + Zpos k.
Proof.
  induction k as [|k IH] using Pos.peano_ind.
  - cbn. lia.
  - rewrite Pos.iter_succ. cbn [digits2_pos]. lia.
Qed.

Lemma digits2_pos_bounds (p : positive) :
  2 ^ (Zpos (digits2_pos p) - 1) <= Zpos p < 2 ^ Zpos (digits2_pos p).
Proof.
  rewrite digits2_pos_size.
  pose proof (Pos.size_gt p) as Hgt. pose proof (Pos.size_le p) as Hle.
  assert (H2 : Zpos (2 ^ Pos.size p) = 2 ^ Zpos (Pos.size p)) by apply Pos2Z.inj_pow.
  split.
  - assert (2 * 2 ^ (Zpos (Pos.size p) - 1) = 2 ^ Zpos (Pos.size p)).
    { rewrite <- Z.pow_succ_r by lia. f_equal. lia. }
    lia.
  - lia.
Qed.

(** Rounding leaves a mantissa of 53 bits as it is. *)
Lemma binary_round_aux_normal (m : positive) (e : Z) :
  Zpos (digits2_pos m) = 53 -> -1074 <= e <= 971 ->
  binary_round_aux 53 1024 false (Zpos m) e loc_Exact = S754_finite false m e.
Proof.
  intros Hd He. unfold binary_round_aux, shr_fexp, fexp, emin. cbn [Zdigits2 shr_record_of_loc].
  rewrite Hd.
  replace (Z.max (53 + e - 53) (3 - 1024 - 53) - e) with 0 by lia.
  cbn [shr shr_m loc_of_shr_record round_nearest_even Zdigits2].
  rewrite Hd.
  replace (Z.max (53 + e - 53) (3 - 1024 - 53) - e) with 0 by lia.
  cbn [shr shr_m].
  assert (H : (e <=? 1024 - 53) = true) by (apply Z.leb_le; lia).
  now rewrite H.
Qed.

Lemma Number_small (p : positive) :
  Zpos (digits2_pos p) <= 53 ->
  exists m e,
    Number (Zpos p) = S754_finite false m e /\
    Zpos (digits2_pos m) = 53 /\
    e = Zpos (digits2_pos p) - 53 /\
    Zpos m = Zpos p * 2 ^ (- e).
Proof.
  intros Hd. unfold Number, binary_normalize, binary_round, shl_align, fexp, emin.
  replace (Z.max (Zpos (digits2_pos p) + 0 - 53) (3 - 1024 - 53) - 0)
    with (Zpos (digits2_pos p) - 53) by lia.
  replace (Z.max (Zpos (digits2_pos p) + 0 - 53) (3 - 1024 - 53))
    with (Zpos (digits2_pos p) - 53) by lia.
  destruct (Zpos (digits2_pos p) - 53) as [|k|k] eqn:Hk; [| lia |].
  - exists p, 0. rewrite binary_round_aux_normal by lia.
    repeat split; try lia.
  - exists (Pos.iter xO p k), (Z.neg k).
    rewrite binary_round_aux_normal; [| rewrite iter_xO_digits; lia | lia].
    repeat split.
    + rewrite iter_xO_digits; lia.
    + rewrite iter_xO_value. reflexivity.
Qed.

Lemma small_digits (p : positive) : Zpos p < 2 ^ 53 -> Zpos (digits2_pos p) <= 53.
Proof.
  intros H. pose proof (digits2_pos_bounds p) as [Hlo _].
  assert (Hlt : 2 ^ (Zpos (digits2_pos p) - 1) < 2 ^ 53) by lia.
  apply Z.pow_lt_mono_r_iff in Hlt; lia.
Qed.

Lemma Number_exact (value : Z) :
  0 <= value < 2 ^ 53 -> number_to_Z (Number value) = Some value.
Proof.
  intros [H0 H53]. destruct value as [|p|p]; [reflexivity| |lia].
  destruct (Number_small p (small_digits p H53)) as (m & e & -> & Hm & He & Hv).
  pose proof (small_digits p H53) as Hd. cbn [number_to_Z cond_Zopp].
  destruct (0 <=? e) eqn:Hle.
  - apply Z.leb_le in Hle. assert (e = 0) by lia. subst e.
    replace (- (Zpos (digits2_pos p) - 53)) with 0 in Hv by lia.
    rewrite Hv, H. cbn. f_equal. lia.
  - apply Z.leb_gt in Hle. rewrite Hv.
    assert (Hp : 0 < 2 ^ (- e)) by (apply Z.pow_pos_nonneg; lia).
    rewrite Z.mod_mul by lia. cbn [Z.eqb]. rewrite Z.div_mul by lia.
    reflexivity.
Qed.

Lemma Number_in_range (value : Z) :
  0 <= value < 2 ^ 53 -> in_uint32_range (Number value) = (value <? 2 ^ 32).
Proof.
  intros [H0 H53]. destruct value as [|p|p]; [reflexivity| |lia].
  destruct (Number_small p (small_digits p H53)) as (m & e & -> & Hm & He & Hv).
  pose proof (digits2_pos_bounds p) as [Hlo Hhi].
  pose proof (digits2_pos_bounds m) as [Hmlo _]. rewrite Hm in Hmlo.
  unfold in_uint32_range, number_leb, number_ltb, SFleb, SFltb.
  change (Number (2 ^ 32)) with (S754_finite false 4503599627370496 (-20)).
  cbn [SFcompare andb].
  destruct (Z.pos p <? 2 ^ 32) eqn:Hlt.
  - apply Z.ltb_lt in Hlt.
    assert (Hd : 2 ^ (Zpos (digits2_pos p) - 1) < 2 ^ 32) by lia.
    apply Z.pow_lt_mono_r_iff in Hd; [|lia|lia].
    assert (Hc : (e ?= -20) = Lt) by (apply Z.compare_lt_iff; lia).
    now rewrite Hc.
  - apply Z.ltb_ge in Hlt.
    assert (Hd : 2 ^ 32 < 2 ^ Zpos (digits2_pos p)) by lia.
    apply Z.pow_lt_mono_r_iff in Hd; [|lia|lia].
    destruct (e ?= -20) eqn:Hc; [| |reflexivity].
    + rewrite Pos.compare_cont_spec.
      destruct (Pos.compare m 4503599627370496) eqn:Hcm; try reflexivity.
      assert (Hm' : Z.pos m < 4503599627370496)
        by (apply Pos2Z.pos_lt_pos; exact Hcm).
      change (2 ^ (53 - 1)) with 4503599627370496 in Hmlo. exfalso. lia.
    + change (e < -20) in Hc. exfalso. lia.
Qed.

(** C8, as stated, fails: [encrypt64(2^32)] hands the number 2^32, which is
    outside of the 32-bit range, to the instance's [encrypt32]. *)
Lemma encrypt64_narrowing_counterexample :
  encrypt_calls (snd (encrypt64 healthy (2 ^ 32) ready_client []))
  = [(Instance 0, Number (2 ^ 32))] /\
  number_to_Z (Number (2 ^ 32)) = Some 4294967296 /\
  in_uint32_range (Number (2 ^ 32)) = false.
Proof. repeat split; reflexivity. Qed.

(** C8, amended: [encrypt64] narrows nothing.  On a ready client it makes one
    call of the instance's [encrypt32], with [Number(value)].  For
    [0 <= value < 2^53] that number is [value] itself, so that it lies in the
    32-bit range exactly when [value < 2^32]. *)
Theorem encrypt64_value_not_narrowed (ext : External) (this : FhevmClient)
    (inst : FhevmJsInstance) (tr : trace) (value : bigint) :
  initialized this = true ->
  instance this = Some inst ->
  encrypt_calls (snd (encrypt64 ext value this tr))
  = encrypt_calls tr ++ [(inst, Number value)] /\
  (0 <= value < 2 ^ 53 ->
   number_to_Z (Number value) = Some value /\
   in_uint32_range (Number value) = (value <? 2 ^ 32)).
Proof.
  intros Hi Hs. split.
  - rewrite encrypt64_as_encrypt32.
    rewrite (encrypt32_ready ext this inst tr _ Hi Hs). cbn [snd].
    now rewrite encrypt_calls_app.
  - intros Hv. split; [now apply Number_exact | now apply Number_in_range].
Qed.

Lemma encrypt64_value_not_narrowed_witness :
  encrypt_calls (snd (encrypt64 healthy (2 ^ 32 + 5) ready_client []))
  = encrypt_calls [] ++ [(Instance 0, Number (2 ^ 32 + 5))] /\
  number_to_Z (Number (2 ^ 32 + 5)) = Some (2 ^ 32 + 5) /\
  in_uint32_range (Number (2 ^ 32 + 5)) = (2 ^ 32 + 5 <? 2 ^ 32).
Proof.
  destruct (encrypt64_value_not_narrowed healthy ready_client (Instance 0) []
              (2 ^ 32 + 5) eq_refl eq_refl) as [Hcall Hvalue].
  split; [exact Hcall|].
  apply Hvalue. split; [discriminate | reflexivity].
Defined.

(** * Further properties of the client *)

(** ** What the methods do to the object *)

Lemma encrypt32_keeps_this (ext : External) (this : FhevmClient) (tr : trace)
    (value : number) :
  snd (fst (encrypt32 ext value this tr)) = this.
Proof.
  destruct (ready this) eqn:Hr.
  - destruct (ready_cases this Hr) as [Hi [inst Hs]].
    now rewrite (encrypt32_ready ext this inst tr value Hi Hs).
  - now rewrite (encrypt32_not_ready ext this tr value Hr).
Qed.

(** The state a client object is in when its instance is set exactly when it
    is flagged as initialised, for the configuration it was built with. *)
Lemma initialize_keeps_invariant (ext : External) (cfg : FhevmConfig)
    (this : FhevmClient) (tr : trace) :
  config this = cfg /\ (initialized this = true <-> instance this <> None) ->
  config (snd (fst (initialize ext this tr))) = cfg /\
  (initialized (snd (fst (initialize ext this tr))) = true <->
   instance (snd (fst (initialize ext this tr))) <> None).
Proof.
  intros [Hc Hi]. destruct (initialized this) eqn:Hinit.
  - rewrite (initialize_when_initialized ext this tr Hinit). cbn. now rewrite Hinit.
  - destruct (initialize_outcomes ext this tr Hinit); cbn; try (now rewrite Hinit).
    split; [exact Hc|]. split; [discriminate | reflexivity].
Qed.

(** X1: whatever methods are called on a client made by [createFhevmClient],
    in whatever order and with whatever answers of the collaborators, the
    configuration is the one it was made with, and the instance is set
    exactly when the client is flagged as initialised: [isInitialized()]
    tells whether the encrypt methods pass their guard. *)
Theorem client_invariant (ext : External) (cfg : FhevmConfig)
    (ops : list client_op) (tr : trace) :
  config (fst (run_ops ext ops (createFhevmClient cfg, tr))) = cfg /\
  (initialized (fst (run_ops ext ops (createFhevmClient cfg, tr))) = true <->
   instance (fst (run_ops ext ops (createFhevmClient cfg, tr))) <> None) /\
  isInitialized (fst (run_ops ext ops (createFhevmClient cfg, tr)))
  = ready (fst (run_ops ext ops (createFhevmClient cfg, tr))).
Proof.
  assert (Hgen : forall ops s,
            (config (fst s) = cfg /\
             (initialized (fst s) = true <-> instance (fst s) <> None)) ->
            config (fst (run_ops ext ops s)) = cfg /\
            (initialized (fst (run_ops ext ops s)) = true <->
             instance (fst (run_ops ext ops s)) <> None)).
  { clear ops tr. induction ops as [|op ops IH]; intros [this tr] H; [exact H|].
    change (run_ops ext (op :: ops) (this, tr))
      with (run_ops ext ops (run_op ext op (this, tr))).
    apply IH. destruct op as [|value|value]; cbn [run_op].
    - pose proof (initialize_keeps_invariant ext cfg this tr H) as Hk.
      destruct (initialize ext this tr) as [[r this'] tr']. exact Hk.
    - pose proof (encrypt32_keeps_this ext this tr value) as Hk.
      destruct (encrypt32 ext value this tr) as [[r this'] tr'].
      cbn in Hk. subst this'. exact H.
    - rewrite encrypt64_as_encrypt32.
      pose proof (encrypt32_keeps_this ext this tr (Number value)) as Hk.
      destruct (encrypt32 ext (Number value) this tr) as [[r this'] tr'].
      cbn in Hk. subst this'. exact H. }
  destruct (Hgen ops (createFhevmClient cfg, tr)) as [Hc Hi].
  { cbn. split; [reflexivity|]. split; [discriminate | intros H; now elim H]. }
  split; [exact Hc|]. split; [exact Hi|].
  unfold isInitialized, ready.
  destruct (initialized (fst (run_ops ext ops (createFhevmClient cfg, tr)))) eqn:Hinit;
    [|reflexivity].
  destruct (instance (fst (run_ops ext ops (createFhevmClient cfg, tr)))) eqn:Hinst;
    [reflexivity|].
  destruct Hi as [Hi _]. now elim (Hi eq_refl).
Qed.

(** X2: the encrypt methods never change the client object, whether they
    succeed, fail in the instance, or are refused by the guard. *)
Theorem encrypt_keeps_client (ext : External) (this : FhevmClient) (tr : trace)
    (value32 : number) (value64 : bigint) :
  snd (fst (encrypt32 ext value32 this tr)) = this /\
  snd (fst (encrypt64 ext value64 this tr)) = this.
Proof.
  split.
  - apply encrypt32_keeps_this.
  - rewrite encrypt64_as_encrypt32. apply encrypt32_keeps_this.
Qed.

(** ** What [initialize] asks of [createInstance] *)

Lemma createInstance_calls_app (tr1 tr2 : trace) :
  createInstance_calls (tr1 ++ tr2)
  = createInstance_calls tr1 ++ createInstance_calls tr2.
Proof. apply flat_map_app. Qed.

Lemma publicKey_events_no_createInstance (ext : External) (this : FhevmClient)
    (tr : trace) :
  createInstance_calls (publicKey_events ext this tr) = [].
Proof.
  unfold publicKey_events.
  destruct (getCode ext tr (acl_of this)) as [code|error]; cbn;
    [destruct (code =? "0x")%string|]; reflexivity.
Qed.

(** X3: on a client that is not initialised, once [getNetwork()] has
    answered, [initialize] calls [createInstance] exactly once, whatever
    reading the ACL contract gives: with the placeholder key ["0x"], the
    gateway of the configuration, and [Number(chainId)], which is the chain
    id itself when that is below 2^53. *)
Theorem initialize_instance_params (ext : External) (this : FhevmClient)
    (tr : trace) (network : Network) :
  initialized this = false ->
  getNetwork ext tr = Ok network ->
  createInstance_calls (snd (initialize ext this tr))
  = createInstance_calls tr ++
    [{| p_chainId := Number (chainId network);
        p_publicKey := "0x";
        p_gatewayUrl := gatewayUrl (config this) |}] /\
  (0 <= chainId network < 2 ^ 53 ->
   number_to_Z (Number (chainId network)) = Some (chainId network)).
Proof.
  intros Hi Hn. split; [|apply Number_exact].
  destruct (initialize_outcomes ext this tr Hi) as [error Hn'|network' error Hn' Hc|network' i Hn' Hc];
    rewrite Hn in Hn'; inversion Hn'; subst; cbn [snd];
    rewrite !createInstance_calls_app, publicKey_events_no_createInstance;
    change (createInstance_calls [GetNetwork]) with (@nil InstanceParams);
    rewrite !app_nil_r; reflexivity.
Qed.

Lemma initialize_instance_params_witness :
  createInstance_calls (snd (initialize no_acl (createFhevmClient example_config) []))
  = createInstance_calls [] ++
    [{| p_chainId := Number (chainId sepolia_network);
        p_publicKey := "0x";
        p_gatewayUrl := gatewayUrl (config (createFhevmClient example_config)) |}] /\
  (0 <= chainId sepolia_network < 2 ^ 53 ->
   number_to_Z (Number (chainId sepolia_network)) = Some (chainId sepolia_network)).
Proof.
  apply (initialize_instance_params no_acl (createFhevmClient example_config) []
           sepolia_network); reflexivity.
Defined.

(** ** Encrypting while [initialize] is in flight *)

Lemma replace_nth_same {A : Type} (l : list A) (k : nat) (x : A) :
  nth_error l k = Some x -> replace_nth k x l = l.
Proof.
  revert k. induction l as [|y l IH]; intros [|k] H; cbn in *;
    try reflexivity; try discriminate.
  - now inversion H.
  - now rewrite IH.
Qed.

Lemma completed_ok_replace_true (l : list init_task) (k : nat) (t t' : init_task) :
  nth_error l k = Some t -> succeeded t' = true ->
  completed_ok (replace_nth k t' l) = true.
Proof.
  revert k. induction l as [|y l IH]; intros [|k] H Ht'; cbn in *;
    try discriminate.
  - now rewrite Ht'.
  - fold (completed_ok (replace_nth k t' l)). rewrite (IH k H Ht').
    apply orb_true_r.
Qed.

Lemma completed_ok_replace_false (l : list init_task) (k : nat) (t t' : init_task) :
  nth_error l k = Some t -> succeeded t = false -> succeeded t' = false ->
  completed_ok (replace_nth k t' l) = completed_ok l.
Proof.
  revert k. induction l as [|y l IH]; intros [|k] H Ht Ht'; cbn in *;
    try discriminate.
  - inversion H; subst. now rewrite Ht, Ht'.
  - fold (completed_ok (replace_nth k t' l)). fold (completed_ok l).
    now rewrite (IH k H Ht Ht').
Qed.

Lemma step_keeps_completion (ext : External) (this0 : FhevmClient)
    (a : action) (p : pool) :
  initialized (shared p) = completed_ok (tasks p) /\
  (initialized (shared p) = false -> shared p = this0) ->
  initialized (shared (step ext a p)) = completed_ok (tasks (step ext a p)) /\
  (initialized (shared (step ext a p)) = false -> shared (step ext a p) = this0).
Proof.
  intros [Hc Hs]. destruct a as [|k].
  - cbn. unfold initialize_start.
    destruct (initialized (shared p)) eqn:Hi; cbn [tasks shared log];
      unfold completed_ok in *; rewrite existsb_app; cbn.
    + rewrite Hi. rewrite orb_true_r. split; [reflexivity | discriminate].
    + rewrite Hi, <- Hc. split; [reflexivity | exact Hs].
  - cbn. destruct (nth_error (tasks p) k) as [t|] eqn:Hk; [|now split].
    destruct t as [[network|error]|c [code|error]|c publicKey|[i|error]|outcome];
      cbn [initialize_resume];
      try (destruct (code =? "0x")%string);
      cbn [tasks shared log initialized];
      lazymatch goal with
      | |- context [replace_nth k ?t' (tasks p)] =>
          first
            [ rewrite (completed_ok_replace_false _ k _ t' Hk eq_refl eq_refl);
              now split
            | rewrite (completed_ok_replace_true _ k _ t' Hk eq_refl);
              split; [reflexivity | discriminate]
            | rewrite (replace_nth_same _ _ _ Hk); now split ]
      end.
Qed.

(** X4: while calls of [initialize] are in flight on a client that was not
    initialised, the client is flagged as initialised exactly when one of
    the calls has run to its end with success.  Until then the object is
    untouched, and an encrypt request fails at once with the not-initialised
    error: calling [encrypt32] after [initialize()] without awaiting it is
    refused, and asks nothing of the instance. *)
Theorem initialized_when_completed (ext : External) (this : FhevmClient)
    (tr : trace) (schedule : list action) (value : number) :
  initialized this = false ->
  initialized (shared (run ext schedule (idle this tr)))
  = completed_ok (tasks (run ext schedule (idle this tr))) /\
  (completed_ok (tasks (run ext schedule (idle this tr))) = false ->
   shared (run ext schedule (idle this tr)) = this /\
   encrypt32 ext value (shared (run ext schedule (idle this tr)))
     (log (run ext schedule (idle this tr)))
   = (Throw (newError NOT_INITIALIZED),
      shared (run ext schedule (idle this tr)),
      log (run ext schedule (idle this tr)))).
Proof.
  intros Hi.
  assert (Hgen : forall schedule p,
            (initialized (shared p) = completed_ok (tasks p) /\
             (initialized (shared p) = false -> shared p = this)) ->
            initialized (shared (run ext schedule p))
            = completed_ok (tasks (run ext schedule p)) /\
            (initialized (shared (run ext schedule p)) = false ->
             shared (run ext schedule p) = this)).
  { clear schedule. induction schedule as [|a schedule IH]; intros p H; [exact H|].
    change (run ext (a :: schedule) p) with (run ext schedule (step ext a p)).
    apply IH. now apply step_keeps_completion. }
  destruct (Hgen schedule (idle this tr)) as [Hc Hs].
  { cbn. rewrite Hi. now split. }
  split; [exact Hc|]. intros Hn. rewrite Hn in Hc. split; [now apply Hs|].
  apply encrypt32_not_ready. unfold ready. now rewrite Hc.
Qed.

Lemma initialized_when_completed_witness :
  initialized
    (shared (run healthy [CallInitialize; Resume 0; Resume 0]
               (idle (createFhevmClient example_config) [])))
  = completed_ok
      (tasks (run healthy [CallInitialize; Resume 0; Resume 0]
                (idle (createFhevmClient example_config) []))) /\
  (completed_ok
     (tasks (run healthy [CallInitialize; Resume 0; Resume 0]
               (idle (createFhevmClient example_config) []))) = false ->
   shared (run healthy [CallInitialize; Resume 0; Resume 0]
             (idle (createFhevmClient example_config) []))
   = createFhevmClient example_config /\
   encrypt32 healthy (Number 1000)
     (shared (run healthy [CallInitialize; Resume 0; Resume 0]
                (idle (createFhevmClient example_config) [])))
     (log (run healthy [CallInitialize; Resume 0; Resume 0]
             (idle (createFhevmClient example_config) [])))
   = (Throw (newError NOT_INITIALIZED),
      shared (run healthy [CallInitialize; Resume 0; Resume 0]
                (idle (createFhevmClient example_config) [])),
      log (run healthy [CallInitialize; Resume 0; Resume 0]
             (idle (createFhevmClient example_config) [])))).
Proof.
  apply (initialized_when_completed healthy (createFhevmClient example_config) []
           [CallInitialize; Resume 0; Resume 0] (Number 1000)).
  reflexivity.
Defined.

Lemma run_keeps_completion (ext : External) (this : FhevmClient)
    (schedule : list action) (p : pool) :
  initialized (shared p) = completed_ok (tasks p) /\
  (initialized (shared p) = false -> shared p = this) ->
  initialized (shared (run ext schedule p))
  = completed_ok (tasks (run ext schedule p)) /\
  (initialized (shared (run ext schedule p)) = false ->
   shared (run ext schedule p) = this).
Proof.
  revert p. induction schedule as [|a schedule IH]; intros p H; [exact H|].
  change (run ext (a :: schedule) p) with (run ext schedule (step ext a p)).
  apply IH. now apply step_keeps_completion.
Qed.

(** What a call of [initialize] does, by what the calls before it have come
    to. *)
Lemma step_call (ext : External) (p : pool) :
  initialized (shared p) = completed_ok (tasks p) ->
  step ext CallInitialize p
  = if completed_ok (tasks p)
    then {| tasks := tasks p ++ [Done (Ok tt)];
            shared := shared p; log := log p |}
    else {| tasks := tasks p ++ [AwaitNetwork (getNetwork ext (log p))];
            shared := shared p; log := log p ++ [GetNetwork] |}.
Proof.
  intros H. cbn. unfold initialize_start. rewrite H.
  now destruct (completed_ok (tasks p)).
Qed.

Lemma run_fresh_calls (ext : External) (this : FhevmClient)
    (schedule : list action) (p : pool) :
  initialized (shared p) = completed_ok (tasks p) /\
  (initialized (shared p) = false -> shared p = this) ->
  getNetwork_calls (log (run ext schedule p))
  = (getNetwork_calls (log p) + fresh_calls ext schedule p)%nat.
Proof.
  revert p. induction schedule as [|a schedule IH]; intros p H.
  - cbn. lia.
  - change (run ext (a :: schedule) p) with (run ext schedule (step ext a p)).
    rewrite (IH _ (step_keeps_completion ext this a p H)).
    cbn [fresh_calls]. destruct a as [|k].
    + rewrite (step_call ext p (proj1 H)).
      destruct (completed_ok (tasks p)); cbn [log].
      * lia.
      * rewrite getNetwork_calls_app.
        change (getNetwork_calls [GetNetwork]) with 1%nat. lia.
    + rewrite step_resume_keeps_getNetwork_calls. lia.
Qed.

(** C9, amended: [initialize] only skips its work once an earlier call on
    the client has completed with success.  At any point of any
    interleaving of calls and resumptions on a client that was not
    initialised, a new call made while no call has completed with success
    issues its own [getNetwork()] and is suspended on it, and a new call
    made after one has completed returns at once and asks nothing; so the
    [getNetwork()] calls of a schedule are as many as its calls of
    [initialize] made before the first successful completion.  In
    particular [n] calls made before any of them has completed make [n]
    calls of [getNetwork()], however the calls are resumed afterwards; and
    [n] runs of the effect of [FhevmProvider] make [n] calls of
    [getNetwork()], each on a client of its own. *)
Theorem initialize_calls_in_flight (ext : External) (this : FhevmClient)
    (tr : trace) (schedule : list action) (n : nat) (resumes : list action)
    (config : FhevmConfig) (st : FhevmContextValue) :
  initialized this = false ->
  forallb is_Resume resumes = true ->
  (completed_ok (tasks (run ext schedule (idle this tr))) = false ->
   step ext CallInitialize (run ext schedule (idle this tr))
   = {| tasks := tasks (run ext schedule (idle this tr))
                 ++ [AwaitNetwork
                       (getNetwork ext (log (run ext schedule (idle this tr))))];
        shared := this;
        log := log (run ext schedule (idle this tr)) ++ [GetNetwork] |}) /\
  (completed_ok (tasks (run ext schedule (idle this tr))) = true ->
   step ext CallInitialize (run ext schedule (idle this tr))
   = {| tasks := tasks (run ext schedule (idle this tr)) ++ [Done (Ok tt)];
        shared := shared (run ext schedule (idle this tr));
        log := log (run ext schedule (idle this tr)) |}) /\
  getNetwork_calls (log (run ext schedule (idle this tr)))
  = (getNetwork_calls tr + fresh_calls ext schedule (idle this tr))%nat /\
  getNetwork_calls
    (log (run ext (repeat CallInitialize n ++ resumes) (idle this tr)))
  = (getNetwork_calls tr + n)%nat /\
  getNetwork_calls (snd (FhevmProvider_effects ext config n st tr))
  = (getNetwork_calls tr + n)%nat.
Proof.
  intros Hi Hr.
  assert (Hidle : initialized (shared (idle this tr))
                  = completed_ok (tasks (idle this tr)) /\
                  (initialized (shared (idle this tr)) = false ->
                   shared (idle this tr) = this))
    by (cbn; rewrite Hi; now split).
  destruct (run_keeps_completion ext this schedule (idle this tr) Hidle)
    as [Hc Hs].
  split; [|split; [|split; [|split]]].
  - intros Hn. rewrite (step_call ext _ Hc), Hn.
    rewrite Hn in Hc. now rewrite (Hs Hc).
  - intros Hy. now rewrite (step_call ext _ Hc), Hy.
  - exact (run_fresh_calls ext this schedule (idle this tr) Hidle).
  - unfold run. rewrite fold_left_app.
    change (getNetwork_calls
              (log (run ext resumes
                      (run ext (repeat CallInitialize n) (idle this tr))))
            = (getNetwork_calls tr + n)%nat).
    rewrite (run_resumes_keeps_getNetwork_calls ext resumes _ Hr).
    now destruct (run_calls ext n (idle this tr) Hi) as [H _].
  - apply FhevmProvider_effects_getNetwork.
Qed.

Lemma initialize_calls_in_flight_witness :
  step healthy CallInitialize
    (run healthy [CallInitialize; Resume 0; Resume 0]
       (idle (createFhevmClient example_config) []))
  = {| tasks := tasks (run healthy [CallInitialize; Resume 0; Resume 0]
                         (idle (createFhevmClient example_config) []))
                ++ [AwaitNetwork
                      (getNetwork healthy
                         (log (run healthy [CallInitialize; Resume 0; Resume 0]
                                 (idle (createFhevmClient example_config) []))))];
       shared := createFhevmClient example_config;
       log := log (run healthy [CallInitialize; Resume 0; Resume 0]
                     (idle (createFhevmClient example_config) []))
              ++ [GetNetwork] |} /\
  getNetwork_calls
    (log (run healthy [CallInitialize; Resume 0; Resume 0]
            (idle (createFhevmClient example_config) [])))
  = (getNetwork_calls []
     + fresh_calls healthy [CallInitialize; Resume 0; Resume 0]
         (idle (createFhevmClient example_config) []))%nat /\
  getNetwork_calls
    (log (run healthy (repeat CallInitialize 2 ++ [Resume 1; Resume 0])
            (idle (createFhevmClient example_config) [])))
  = (getNetwork_calls [] + 2)%nat /\
  getNetwork_calls
    (snd (FhevmProvider_effects healthy example_config 2 FhevmContext_default []))
  = (getNetwork_calls [] + 2)%nat.
Proof.
  destruct (initialize_calls_in_flight healthy (createFhevmClient example_config)
              [] [CallInitialize; Resume 0; Resume 0] 2 [Resume 1; Resume 0]
              example_config FhevmContext_default eq_refl eq_refl)
    as (Hfresh & _ & Hcount & Hn & Hp).
  split; [exact (Hfresh eq_refl)|]. split; [exact Hcount|].
  split; [exact Hn | exact Hp].
Defined.

(** Two calls made while the first is in flight ask twice; a third, made
    after the first has completed, asks nothing. *)
Example initialize_calls_interleaved :
  getNetwork_calls
    (log (run healthy
            [CallInitialize; Resume 0; CallInitialize; Resume 0; Resume 0;
             Resume 0; CallInitialize; Resume 1; Resume 1; Resume 1; Resume 1]
            (idle (createFhevmClient example_config) []))) = 2%nat /\
  tasks (run healthy
           [CallInitialize; Resume 0; CallInitialize; Resume 0; Resume 0;
            Resume 0; CallInitialize; Resume 1; Resume 1; Resume 1; Resume 1]
           (idle (createFhevmClient example_config) []))
  = [Done (Ok tt); Done (Ok tt); Done (Ok tt)].
Proof. split; reflexivity. Qed.

(** ** The decryption signature *)

Lemma token_requests_app (h1 h2 : history) :
  token_requests (h1 ++ h2) = token_requests h1 ++ token_requests h2.
Proof. apply flat_map_app. Qed.

(** X5: on a client that is not ready, [createDecryptionSignature] and
    [requestDecryption] throw the (short) not-initialised error at once: the
    object and the history are as before, no token was asked for. *)
Theorem signature_not_ready_fails_fast (generateToken : TokenIssuer)
    (request : DecryptionRequest) (this : FhevmClient) (h : history) :
  ready this = false ->
  createDecryptionSignature generateToken
    (contractAddress request) (userAddress request) this h
  = (Throw (newError NOT_INITIALIZED_SHORT), this, h) /\
  requestDecryption generateToken request this h
  = (Throw (newError NOT_INITIALIZED_SHORT), this, h).
Proof.
  intros Hr.
  assert (H : createDecryptionSignature generateToken
                (contractAddress request) (userAddress request) this h
              = (Throw (newError NOT_INITIALIZED_SHORT), this, h)).
  { unfold createDecryptionSignature.
    destruct (not_ready_cases this Hr) as [Hi|Hs]; rewrite ?Hi, ?Hs;
      [reflexivity | now destruct (initialized this)]. }
  split; [exact H|]. unfold requestDecryption. now rewrite H.
Qed.

Lemma signature_not_ready_fails_fast_witness :
  createDecryptionSignature signing example_contract "0xUser"
    (createFhevmClient example_config) []
  = (Throw (newError NOT_INITIALIZED_SHORT), createFhevmClient example_config, []) /\
  requestDecryption signing
    {| contractAddress := example_contract; handle := 7; userAddress := "0xUser" |}
    (createFhevmClient example_config) []
  = (Throw (newError NOT_INITIALIZED_SHORT), createFhevmClient example_config, []).
Proof.
  apply (signature_not_ready_fails_fast signing
           {| contractAddress := example_contract; handle := 7;
              userAddress := "0xUser" |}
           (createFhevmClient example_config) []).
  reflexivity.
Defined.

(** X6: on a ready client [requestDecryption] asks the instance for one
    token, for the contract of the request, and resolves to that token, or
    throws [Error("Failed to create signature: " + cause)]; the object is
    unchanged.  The handle and the user address of the request play no part:
    two requests for the same contract behave alike. *)
Theorem requestDecryption_by_contract (generateToken : TokenIssuer)
    (request request' : DecryptionRequest) (this : FhevmClient)
    (inst : FhevmJsInstance) (h : history) :
  initialized this = true ->
  instance this = Some inst ->
  contractAddress request' = contractAddress request ->
  requestDecryption generateToken request this h
  = (match generateToken h inst (contractAddress request) with
     | Ok signature => Ok (token signature)
     | Throw cause =>
         Throw (newError ("Failed to create signature: " ++ toString cause)%string)
     end, this, h ++ [GenerateToken inst (contractAddress request)]) /\
  token_requests (snd (requestDecryption generateToken request this h))
  = token_requests h ++ [(inst, contractAddress request)] /\
  requestDecryption generateToken request' this h
  = requestDecryption generateToken request this h.
Proof.
  intros Hi Hs Hc.
  assert (H : forall r,
            requestDecryption generateToken r this h
            = (match generateToken h inst (contractAddress r) with
               | Ok signature => Ok (token signature)
               | Throw cause =>
                   Throw (newError
                            ("Failed to create signature: " ++ toString cause)%string)
               end, this, h ++ [GenerateToken inst (contractAddress r)])).
  { intros r. unfold requestDecryption, createDecryptionSignature.
    rewrite Hi, Hs. now destruct (generateToken h inst (contractAddress r)). }
  split; [apply H|]. split.
  - rewrite H. cbn [snd]. now rewrite token_requests_app.
  - rewrite !H. now rewrite Hc.
Qed.

Lemma requestDecryption_by_contract_witness :
  requestDecryption signing
    {| contractAddress := example_contract; handle := 1; userAddress := "0xA" |}
    ready_client []
  = (Ok ("token:" ++ example_contract)%string, ready_client,
     [GenerateToken (Instance 0) example_contract]) /\
  requestDecryption signing
    {| contractAddress := example_contract; handle := 2; userAddress := "0xB" |}
    ready_client []
  = requestDecryption signing
      {| contractAddress := example_contract; handle := 1; userAddress := "0xA" |}
      ready_client [].
Proof.
  destruct (requestDecryption_by_contract signing
              {| contractAddress := example_contract; handle := 1; userAddress := "0xA" |}
              {| contractAddress := example_contract; handle := 2; userAddress := "0xB" |}
              ready_client (Instance 0) [] eq_refl eq_refl eq_refl)
    as (Hone & _ & Hsame).
  split; [exact Hone | exact Hsame].
Defined.

(** ** The provider component *)

Lemma initialize_ok_ready (ext : External) (this this' : FhevmClient)
    (tr tr' : trace) :
  initialized this = false ->
  initialize ext this tr = (Ok tt, this', tr') -> ready this' = true.
Proof.
  intros Hi H. pose proof (initialize_outcomes ext this tr Hi) as Ho.
  rewrite H in Ho. inversion Ho; subst. reflexivity.
Qed.

Lemma FhevmProvider_init_cases (ext : External) (config : FhevmConfig)
    (st : FhevmContextValue) (tr : trace) :
  (exists client,
      ready client = true /\
      fst (FhevmProvider_init ext config st tr)
      = {| ctx_client := Some client;
           ctx_isInitialized := true;
           ctx_error := ctx_error st |}) \/
  (exists err,
      fst (FhevmProvider_init ext config st tr)
      = {| ctx_client := ctx_client st;
           ctx_isInitialized := ctx_isInitialized st;
           ctx_error := Some err |}).
Proof.
  unfold FhevmProvider_init.
  destruct (initialize ext (createFhevmClient config) tr) as [[[[]|err] c] tr'] eqn:H.
  - left. exists c. split; [|reflexivity].
    now apply (initialize_ok_ready ext (createFhevmClient config) c tr tr').
  - right. now exists err.
Qed.

(** X7: whatever number of times the effect of [FhevmProvider] has run, and
    whatever the collaborators answered, a context that says initialised
    holds a client that passes the guard of the encrypt methods.  A run
    whose [initialize] throws leaves client and readiness as they were and
    sets the error to what was thrown; a run whose [initialize] succeeds
    sets the new client, which is ready, and leaves an earlier error in
    place.  So, once set, neither [isInitialized] nor [error] is ever
    reset. *)
Theorem FhevmProvider_context (ext : External) (config : FhevmConfig) (n : nat)
    (st : FhevmContextValue) (tr : trace) :
  context_ok st ->
  context_ok (fst (FhevmProvider_effects ext config n st tr)) /\
  (ctx_isInitialized st = true ->
   ctx_isInitialized (fst (FhevmProvider_effects ext config n st tr)) = true) /\
  (ctx_error st <> None ->
   ctx_error (fst (FhevmProvider_effects ext config n st tr)) <> None) /\
  (forall err client tr',
      initialize ext (createFhevmClient config) tr = (Throw err, client, tr') ->
      FhevmProvider_init ext config st tr
      = ({| ctx_client := ctx_client st;
            ctx_isInitialized := ctx_isInitialized st;
            ctx_error := Some err |}, tr')) /\
  (forall client tr',
      initialize ext (createFhevmClient config) tr = (Ok tt, client, tr') ->
      ready client = true /\
      FhevmProvider_init ext config st tr
      = ({| ctx_client := Some client;
            ctx_isInitialized := true;
            ctx_error := ctx_error st |}, tr')).
Proof.
  intros Hok0.
  assert (Hmany : forall n st tr,
            context_ok st ->
            context_ok (fst (FhevmProvider_effects ext config n st tr)) /\
            (ctx_isInitialized st = true ->
             ctx_isInitialized (fst (FhevmProvider_effects ext config n st tr))
             = true) /\
            (ctx_error st <> None ->
             ctx_error (fst (FhevmProvider_effects ext config n st tr)) <> None)).
  { clear. induction n as [|n IH]; intros st tr Hok;
      cbn [FhevmProvider_effects fst]; [now repeat split|].
    pose proof (FhevmProvider_init_cases ext config st tr) as Hcases.
    destruct (FhevmProvider_init ext config st tr) as [st' tr'].
    cbn [fst] in Hcases.
    assert (Hok' : context_ok st').
    { destruct Hcases as [(client & Hr & ->)|(err & ->)]; intros Hinit; cbn in *.
      - now exists client.
      - now apply Hok. }
    destruct (IH st' tr' Hok') as (H1 & H2 & H3).
    split; [exact H1|]. split.
    - intros Hinit. apply H2.
      destruct Hcases as [(client & Hr & ->)|(err & ->)];
        [reflexivity | exact Hinit].
    - intros Herr. apply H3.
      destruct Hcases as [(client & Hr & ->)|(err & ->)];
        [exact Herr | discriminate]. }
  destruct (Hmany n st tr Hok0) as (H1 & H2 & H3).
  split; [exact H1|]. split; [exact H2|]. split; [exact H3|]. split.
  - intros err client tr' H. unfold FhevmProvider_init. now rewrite H.
  - intros client tr' H. split.
    + now apply (initialize_ok_ready ext (createFhevmClient config) client tr tr').
    + unfold FhevmProvider_init. now rewrite H.
Qed.

Lemma FhevmProvider_context_witness :
  context_ok (fst (FhevmProvider_effects offline example_config 2
                     stale_context [])) /\
  ctx_isInitialized (fst (FhevmProvider_effects offline example_config 2
                            stale_context [])) = true /\
  ctx_error (fst (FhevmProvider_effects offline example_config 2
                    stale_context [])) <> None /\
  FhevmProvider_init offline example_config stale_context []
  = ({| ctx_client := ctx_client stale_context;
        ctx_isInitialized := ctx_isInitialized stale_context;
        ctx_error := Some (initialize_failed (failure [])) |}, [GetNetwork]).
Proof.
  destruct (FhevmProvider_context offline example_config 2 stale_context []
              (fun _ => ex_intro _ ready_client (conj eq_refl eq_refl)))
    as (Hok & Hinit & Herr & Hfail & _).
  split; [exact Hok|]. split; [exact (Hinit eq_refl)|].
  split; [apply Herr; discriminate|].
  exact (Hfail _ _ _ eq_refl).
Defined.

(** After a failed run and then a successful one, the context is ready and
    still shows the error of the failed run. *)
Example FhevmProvider_stale_error :
  fst (FhevmProvider_effects recovering example_config 2 FhevmContext_default [])
  = {| ctx_client := Some ready_client;
       ctx_isInitialized := true;
       ctx_error :=
         Some (newError "Failed to initialize fhEVM: Error: network down") |}.
Proof. reflexivity. Qed.

(** ** The callbacks of [useEncrypt] and [useEncryptedBid] *)


Lemma context_eta (ctx : FhevmContextValue) (client : FhevmClient) :
  ctx_client ctx = Some client ->
  {| ctx_client := Some client;
     ctx_isInitialized := ctx_isInitialized ctx;
     ctx_error := ctx_error ctx |} = ctx.
Proof. destruct ctx; cbn; now intros ->. Qed.

(** The callback on a context that passes its guard, with a client that
    passes its own. *)
Lemma useEncrypt_start_ready (ext : External) (value : number)
    (ctx : FhevmContextValue) (client : FhevmClient) (inst : FhevmJsInstance)
    (st : EncryptState) (tr : trace) :
  ctx_isInitialized ctx = true ->
  ctx_client ctx = Some client ->
  initialized client = true ->
  instance client = Some inst ->
  useEncrypt_start (encrypt32 ext value) ctx st tr
  = (Awaiting
       (match instance_encrypt32 ext tr inst value with
        | Ok encrypted => Ok {| data := encrypted; handles := [] |}
        | Throw error =>
            Throw (newError ("Failed to encrypt value: " ++ toString error)%string)
        end),
     {| isEncrypting := true; encrypt_error := None |}, ctx,
     tr ++ [InstanceEncrypt32 inst value]).
Proof.
  intros Hi Hc Hci Hcs. destruct ctx as [c i e]. cbn in Hi, Hc. subst.
  unfold useEncrypt_start. cbn [ctx_isInitialized ctx_client ctx_error].
  now rewrite (encrypt32_ready ext client inst tr value Hci Hcs).
Qed.

Lemma useEncrypt_start_keeps_context (ext : External) (value : number)
    (ctx : FhevmContextValue) (st : EncryptState) (tr : trace) :
  snd (fst (useEncrypt_start (encrypt32 ext value) ctx st tr)) = ctx.
Proof.
  unfold useEncrypt_start. destruct ctx as [[client|] [|] e];
    cbn [ctx_isInitialized ctx_client ctx_error]; try reflexivity.
  pose proof (encrypt32_keeps_this ext client tr value) as Hk.
  destruct (encrypt32 ext value client tr) as [[answer client'] tr'].
  cbn in Hk. subst client'. reflexivity.
Qed.



(** X9: [encryptBid] always ends with [isProcessing] false and the context
    unchanged; it resolves to [null] exactly when it leaves the error
    [Error("Encryption failed")], whatever went wrong, and to a bid exactly
    when it leaves no error.  When the guard of the encrypt callback
    refuses, nothing is asked of the instance. *)
Theorem encryptBid_outcome (ext : External) (bidAmount completionTime : number)
    (ctx ctx' : FhevmContextValue) (est est' : EncryptState)
    (bst bst' : BidState) (tr tr' : trace) (r : option EncryptedBid) :
  encryptBid ext bidAmount completionTime ctx est bst tr
  = (r, bst', est', ctx', tr') ->
  isProcessing bst' = false /\
  (r = None <-> bid_error bst' = Some (newError "Encryption failed")) /\
  (r <> None <-> bid_error bst' = None) /\
  ctx' = ctx /\
  (ctx_isInitialized ctx = false \/ ctx_client ctx = None ->
   r = None /\ tr' = tr).
Proof.
  unfold encryptBid, useEncrypt_start. intros H.
  destruct ctx as [[client|] [|] e];
    cbn [ctx_isInitialized ctx_client ctx_error] in *.
  - pose proof (encrypt32_keeps_this ext client tr bidAmount) as Hk1.
    destruct (encrypt32 ext bidAmount client tr) as [[answer1 client1] tr1].
    cbn in Hk1. subst client1.
    cbn [ctx_isInitialized ctx_client ctx_error] in H.
    pose proof (encrypt32_keeps_this ext client tr1 completionTime) as Hk2.
    destruct (encrypt32 ext completionTime client tr1) as [[answer2 client2] tr2].
    cbn in Hk2. subst client2.
    destruct answer1, answer2; cbn in H; inversion H; subst; cbn;
      (split; [reflexivity|]); (split; [split; congruence|]);
      (split; [split; congruence|]); (split; [reflexivity|]);
      intros [Hf|Hf]; discriminate.
  - cbn in H. inversion H; subst; cbn.
    split; [reflexivity|]. split; [split; congruence|].
    split; [split; congruence|]. split; [reflexivity|]. now split.
  - cbn in H. inversion H; subst; cbn.
    split; [reflexivity|]. split; [split; congruence|].
    split; [split; congruence|]. split; [reflexivity|]. now split.
  - cbn in H. inversion H; subst; cbn.
    split; [reflexivity|]. split; [split; congruence|].
    split; [split; congruence|]. split; [reflexivity|]. now split.
Qed.

Lemma encryptBid_outcome_witness :
  encryptBid healthy (Number 5000) (Number 30) FhevmContext_default
    idle_encrypt idle_bid []
  = (None,
     {| isProcessing := false; bid_error := Some (newError "Encryption failed") |},
     {| isEncrypting := false;
        encrypt_error := Some (newError HOOK_NOT_INITIALIZED) |},
     FhevmContext_default, []) /\
  isProcessing
    {| isProcessing := false; bid_error := Some (newError "Encryption failed") |}
  = false.
Proof.
  assert (H : encryptBid healthy (Number 5000) (Number 30) FhevmContext_default
                idle_encrypt idle_bid []
              = (None,
                 {| isProcessing := false;
                    bid_error := Some (newError "Encryption failed") |},
                 {| isEncrypting := false;
                    encrypt_error := Some (newError HOOK_NOT_INITIALIZED) |},
                 FhevmContext_default, []))
    by reflexivity.
  split; [exact H|].
  exact (proj1 (encryptBid_outcome healthy (Number 5000) (Number 30)
                  _ _ _ _ _ _ _ _ _ H)).
Defined.

(** X10: on a context that holds a ready client, [encryptBid] asks the
    instance twice, for the amount and then for the time, also when the
    first request fails.  It resolves to a bid exactly when both requests
    succeed.  The error left in [useEncrypt] is that of the second request
    when it failed, else that of the first, else none; the error left in
    [useEncryptedBid] names no cause. *)
Theorem encryptBid_ready (ext : External) (bidAmount completionTime : number)
    (ctx : FhevmContextValue) (client : FhevmClient) (inst : FhevmJsInstance)
    (est : EncryptState) (bst : BidState) (tr : trace) :
  ctx_isInitialized ctx = true ->
  ctx_client ctx = Some client ->
  initialized client = true ->
  instance client = Some inst ->
  encryptBid ext bidAmount completionTime ctx est bst tr
  = (match instance_encrypt32 ext tr inst bidAmount,
           instance_encrypt32 ext (tr ++ [InstanceEncrypt32 inst bidAmount])
             inst completionTime with
     | Ok amount, Ok time =>
         Some {| encryptedAmount := {| data := amount; handles := [] |};
                 encryptedTime := {| data := time; handles := [] |} |}
     | _, _ => None
     end,
     {| isProcessing := false;
        bid_error :=
          match instance_encrypt32 ext tr inst bidAmount,
                instance_encrypt32 ext (tr ++ [InstanceEncrypt32 inst bidAmount])
                  inst completionTime with
          | Ok _, Ok _ => None
          | _, _ => Some (newError "Encryption failed")
          end |},
     {| isEncrypting := false;
        encrypt_error :=
          match instance_encrypt32 ext (tr ++ [InstanceEncrypt32 inst bidAmount])
                  inst completionTime,
                instance_encrypt32 ext tr inst bidAmount with
          | Throw cause, _ =>
              Some (newError ("Failed to encrypt value: " ++ toString cause)%string)
          | Ok _, Throw cause =>
              Some (newError ("Failed to encrypt value: " ++ toString cause)%string)
          | Ok _, Ok _ => None
          end |},
     ctx,
     tr ++ [InstanceEncrypt32 inst bidAmount;
            InstanceEncrypt32 inst completionTime]).
Proof.
  intros Hi Hc Hci Hcs. unfold encryptBid.
  rewrite (useEncrypt_start_ready ext bidAmount ctx client inst est tr Hi Hc Hci Hcs).
  rewrite (useEncrypt_start_ready ext completionTime ctx client inst _ _ Hi Hc Hci Hcs).
  rewrite <- app_assoc. cbn [app].
  destruct (instance_encrypt32 ext tr inst bidAmount) as [amount|cause1];
    destruct (instance_encrypt32 ext (tr ++ [InstanceEncrypt32 inst bidAmount])
                inst completionTime) as [time|cause2];
    reflexivity.
Qed.

Lemma encryptBid_ready_witness :
  encryptBid flaky (Number 5000) (Number 30) ready_context idle_encrypt idle_bid []
  = (None,
     {| isProcessing := false; bid_error := Some (newError "Encryption failed") |},
     {| isEncrypting := false;
        encrypt_error :=
          Some (newError "Failed to encrypt value: Error: timeout") |},
     ready_context,
     [InstanceEncrypt32 (Instance 0) (Number 5000);
      InstanceEncrypt32 (Instance 0) (Number 30)]).
Proof.
  exact (encryptBid_ready flaky (Number 5000) (Number 30) ready_context
           ready_client (Instance 0) idle_encrypt idle_bid []
           eq_refl eq_refl eq_refl eq_refl).
Defined.

(** ** After a successful [initialize] *)




(** * The bidding contract *)

Module BiddingFacts.
Import Bidding.

Lemma upd_same {B : Type} (f : Z -> B) (k : Z) (v : B) : upd f k v k = v.
Proof. unfold upd. now rewrite Z.eqb_refl. Qed.

Lemma upd_other {B : Type} (f : Z -> B) (k x : Z) (v : B) :
  x <> k -> upd f k v x = f x.
Proof. unfold upd. intros H. apply Z.eqb_neq in H. now rewrite H. Qed.

(** Takes the tests of a transaction apart. *)
Ltac tests H :=
  repeat match type of H with
         | context [if ?b then _ else _] => destruct b eqn:?
         end;
  try discriminate H.

Section Facts.

Variable asEuint32 : Z -> Z.
Variable FHE_lt : Z -> Z -> Z.
Variable FHE_select : Z -> Z -> Z -> Z.

Lemma authorize_keeps (m : Msg) (c : address) (s : State) :
  invariant s -> invariant (storage_after s (authorizeContractor m c s)).
Proof.
  intros [H1 H2 H3 H4 H5]. unfold authorizeContractor.
  destruct (negb _); [now split|]. destruct (authorizedContractors s c); now split.
Qed.

Lemma revoke_keeps (m : Msg) (c : address) (s : State) :
  invariant s -> invariant (storage_after s (revokeContractor m c s)).
Proof.
  intros [H1 H2 H3 H4 H5]. unfold revokeContractor.
  destruct (negb _); [now split|]. destruct (negb _); now split.
Qed.

Lemma valid_id_range (s : State) (projectId : Z) :
  valid_id s projectId = true <-> 1 <= projectId <= projectCount s.
Proof.
  unfold valid_id. rewrite andb_true_iff, Z.ltb_lt, Z.leb_le. lia.
Qed.

Lemma createProject_keeps (m : Msg) (n d : string) (b dl du : Z) (s : State) :
  invariant s -> invariant (storage_after s (createProject m n d b dl du s)).
Proof.
  intros Hinv. pose proof Hinv as [H1 H2 H3 H4 H5].
  unfold createProject.
  repeat match goal with
         | |- context [if ?c then _ else _] => destruct c eqn:?
         end; cbn [storage_after]; try exact Hinv.
  split; cbn [projectCount projects bids].
  - lia.
  - intros projectId a Hv. apply H2.
    destruct (valid_id s projectId) eqn:Hv'; [|reflexivity].
    apply valid_id_range in Hv'.
    assert (valid_id {| owner := owner s; projectCount := projectCount s + 1;
                        projects := projects s; bids := bids s;
                        authorizedContractors := authorizedContractors s |}
                     projectId = true) as Hc
      by (apply valid_id_range; cbn; lia).
    unfold valid_id in *. cbn in *. congruence.
  - intros projectId. unfold upd.
    destruct (projectId =? projectCount s + 1) eqn:He; cbn; [|apply H3].
    apply H3.
  - intros projectId a. unfold upd.
    destruct (projectId =? projectCount s + 1) eqn:He; cbn; [|apply H4].
    apply Z.eqb_eq in He. subst. apply H4.
  - intros projectId. unfold upd.
    destruct (projectId =? projectCount s + 1) eqn:He; cbn; [now left|apply H5].
Qed.

Lemma closeBidding_keeps (m : Msg) (projectId : Z) (s : State) :
  invariant s -> invariant (storage_after s (closeBidding m projectId s)).
Proof.
  intros Hinv. pose proof Hinv as [H1 H2 H3 H4 H5]. unfold closeBidding.
  repeat match goal with
         | |- context [if ?c then _ else _] => destruct c eqn:?
         end; cbn [storage_after]; try exact Hinv.
  split; cbn [projectCount projects bids set_project]; try assumption.
  - intros p. unfold upd. destruct (p =? projectId) eqn:He; cbn; [|apply H3].
    apply H3.
  - intros p a. unfold upd. destruct (p =? projectId) eqn:He; cbn; [|apply H4].
    apply Z.eqb_eq in He. subst. apply H4.
  - intros p. unfold upd. destruct (p =? projectId) eqn:He; cbn; [|apply H5].
    apply H5.
Qed.

Lemma submitBid_keeps (m : Msg) (projectId a t : Z) (pr : string) (s : State) :
  invariant s ->
  invariant (storage_after s (submitBid asEuint32 m projectId a t pr s)).
Proof.
  intros Hinv. pose proof Hinv as [H1 H2 H3 H4 H5]. unfold submitBid.
  repeat match goal with
         | |- context [if ?c then _ else _] => destruct c eqn:?
         end; cbn [storage_after]; try exact Hinv.
  assert (Hvalid : valid_id s projectId = true)
    by (now destruct (valid_id s projectId)).
  assert (Hnew : ~ In (sender m) (bidders (projects s projectId))).
  { intros Hin. apply H4 in Hin. congruence. }
  split; cbn [projectCount projects bids]; try assumption.
  - intros p x Hv. unfold upd at 1.
    destruct (p =? projectId) eqn:He.
    + apply Z.eqb_eq in He. subst. unfold valid_id in *. cbn in *. congruence.
    + apply H2. exact Hv.
  - intros p. unfold upd. destruct (p =? projectId) eqn:He; cbn; [|apply H3].
    apply NoDup_app; [apply H3 | repeat constructor; intros [] |].
    intros x Hx [<-|[]]. now apply Hnew.
  - intros p x. unfold upd at 1 2.
    destruct (p =? projectId) eqn:He; cbn [bidders]; [|apply H4].
    rewrite in_app_iff. unfold upd.
    destruct (x =? sender m) eqn:Hx; cbn.
    + apply Z.eqb_eq in Hx. subst. split; auto.
    + apply Z.eqb_neq in Hx. rewrite H4.
      split; [intros [H|[H|[]]]; [exact H | now elim Hx] | now left].
  - intros p. unfold upd. destruct (p =? projectId) eqn:He; cbn; [|apply H5].
    destruct (H5 projectId) as [H|H]; [now left|right].
    apply in_app_iff. now left.
Qed.

Lemma evaluateBids_keeps (m : Msg) (projectId : Z) (s : State) :
  invariant s ->
  invariant (storage_after s
               (evaluateBids asEuint32 FHE_lt FHE_select m projectId s)).
Proof.
  intros Hinv. pose proof Hinv as [H1 H2 H3 H4 H5]. unfold evaluateBids.
  destruct (evaluate_loop _ _ _ _ _ _) as [bestBidder lowest].
  repeat match goal with
         | |- context [if ?c then _ else _] => destruct c eqn:?
         end; cbn [storage_after]; try exact Hinv.
  split; cbn [projectCount projects bids set_project]; try assumption.
  - intros p. unfold upd. destruct (p =? projectId) eqn:He; cbn; [|apply H3].
    apply H3.
  - intros p a. unfold upd. destruct (p =? projectId) eqn:He; cbn; [|apply H4].
    apply Z.eqb_eq in He. subst. apply H4.
  - intros p. unfold upd. destruct (p =? projectId) eqn:He; cbn; [|apply H5].
    right. destruct (bidders (projects s projectId)) as [|first rest].
    + cbn in *. discriminate.
    + now left.
Qed.

Lemma exec_keeps (s : State) (tx : Msg * Call) :
  invariant s -> invariant (exec asEuint32 FHE_lt FHE_select s tx).
Proof.
  intros Hinv. destruct tx as [m [c|c|n d b dl du|p a t pr|p|p]]; cbn [exec].
  - now apply authorize_keeps.
  - now apply revoke_keeps.
  - now apply createProject_keeps.
  - now apply submitBid_keeps.
  - now apply closeBidding_keeps.
  - now apply evaluateBids_keeps.
Qed.

Lemma constructor_invariant (m : Msg) : invariant (constructor m).
Proof.
  split; cbn.
  - lia.
  - reflexivity.
  - intros _. constructor.
  - intros _ a. split; [intros [] | discriminate].
  - intros _. now left.
Qed.

End Facts.

(** X12: after any transactions on a freshly deployed contract, whatever
    the FHE library answers, the bidders of a project are pairwise distinct,
    they are exactly the accounts whose bid on that project is marked as
    submitted, and the winner of a project is either unset or one of its
    bidders. *)
Theorem bidders_invariant (asEuint32 : Z -> Z) (FHE_lt : Z -> Z -> Z)
    (FHE_select : Z -> Z -> Z -> Z) (deployer : Msg) (txs : list (Msg * Call))
    (projectId : Z) (a : address) :
  NoDup (bidders (projects
                    (execs asEuint32 FHE_lt FHE_select (constructor deployer) txs)
                    projectId)) /\
  (In a (bidders (projects
                    (execs asEuint32 FHE_lt FHE_select (constructor deployer) txs)
                    projectId)) <->
   submitted (bids (execs asEuint32 FHE_lt FHE_select (constructor deployer) txs)
                projectId a) = true) /\
  (winner (projects
             (execs asEuint32 FHE_lt FHE_select (constructor deployer) txs)
             projectId) = 0 \/
   In (winner (projects
                 (execs asEuint32 FHE_lt FHE_select (constructor deployer) txs)
                 projectId))
      (bidders (projects
                  (execs asEuint32 FHE_lt FHE_select (constructor deployer) txs)
                  projectId))).
Proof.
  assert (Hgen : forall txs s, invariant s ->
                               invariant (execs asEuint32 FHE_lt FHE_select s txs)).
  { clear txs. induction txs as [|tx txs IH]; intros s Hs; [exact Hs|].
    apply (IH (exec asEuint32 FHE_lt FHE_select s tx)). now apply exec_keeps. }
  destruct (Hgen txs (constructor deployer) (constructor_invariant deployer))
    as [H1 H2 H3 H4 H5].
  split; [apply H3|]. split; [apply H4 | apply H5].
Qed.


Section MoreFacts.

Variable asEuint32 : Z -> Z.
Variable FHE_lt : Z -> Z -> Z.
Variable FHE_select : Z -> Z -> Z -> Z.

Local Abbreviation exec' := (exec asEuint32 FHE_lt FHE_select).
Local Abbreviation execs' := (execs asEuint32 FHE_lt FHE_select).

Lemma execs_cons (s : State) (tx : Msg * Call) (txs : list (Msg * Call)) :
  execs' s (tx :: txs) = execs' (exec' s tx) txs.
Proof. reflexivity. Qed.

(** What a transaction never touches. *)
Lemma exec_frame (s : State) (tx : Msg * Call) :
  owner (exec' s tx) = owner s /\
  projectCount s <= projectCount (exec' s tx) /\
  (sender (fst tx) <> owner s ->
   forall c, authorizedContractors (exec' s tx) c = authorizedContractors s c) /\
  (forall projectId a,
      submitted (bids s projectId a) = true ->
      submitted (bids (exec' s tx) projectId a) = true).
Proof.
  destruct tx as [m [c|c|n d b dl du|p a t pr|p|p]]; cbn [exec fst].
  - unfold authorizeContractor.
    destruct (sender m =? owner s) eqn:Ho; cbn [negb storage_after].
    + destruct (authorizedContractors s c); cbn; repeat split; auto; try lia.
      all: intros Hne; apply Z.eqb_eq in Ho; now elim Hne.
    + repeat split; auto; lia.
  - unfold revokeContractor.
    destruct (sender m =? owner s) eqn:Ho; cbn [negb storage_after].
    + destruct (authorizedContractors s c); cbn; repeat split; auto; try lia.
      all: intros Hne; apply Z.eqb_eq in Ho; now elim Hne.
    + repeat split; auto; lia.
  - unfold createProject.
    repeat match goal with
           | |- context [if ?c then _ else _] => destruct c eqn:?
           end; cbn; repeat split; auto; lia.
  - unfold submitBid.
    repeat match goal with
           | |- context [if ?c then _ else _] => destruct c eqn:?
           end; cbn [storage_after owner projectCount authorizedContractors bids];
      repeat split; auto; try lia.
    intros p' a' Hs. unfold upd.
    destruct (p' =? p) eqn:Hp; [|exact Hs].
    destruct (a' =? sender m) eqn:Ha; [reflexivity|].
    apply Z.eqb_eq in Hp. now subst.
  - unfold closeBidding.
    repeat match goal with
           | |- context [if ?c then _ else _] => destruct c eqn:?
           end; cbn; repeat split; auto; lia.
  - unfold evaluateBids. destruct (evaluate_loop _ _ _ _ _ _) as [best lowest].
    repeat match goal with
           | |- context [if ?c then _ else _] => destruct c eqn:?
           end; cbn; repeat split; auto; lia.
Qed.

Lemma evaluate_loop_keeps_best (bidsOf : address -> PrivateBid)
    (rest : list address) (best lowest : Z) :
  best <> 0 ->
  fst (evaluate_loop FHE_lt FHE_select bidsOf rest best lowest) = best.
Proof.
  revert best lowest. induction rest as [|b rest IH]; intros best lowest Hb;
    cbn [evaluate_loop]; [reflexivity|].
  apply Z.eqb_neq in Hb. rewrite Hb. apply IH. now apply Z.eqb_neq.
Qed.

(** A closed project stays as it is, but for the winner. *)
Lemma exec_closed (s : State) (tx : Msg * Call) (projectId : Z) :
  valid_id s projectId = true ->
  biddingClosed (projects s projectId) = true ->
  valid_id (exec' s tx) projectId = true /\
  biddingClosed (projects (exec' s tx) projectId) = true /\
  bidders (projects (exec' s tx) projectId) = bidders (projects s projectId).
Proof.
  intros Hv Hc. pose proof Hv as Hr. apply valid_id_range in Hr.
  destruct tx as [m [c|c|n d b dl du|p a t pr|p|p]]; cbn [exec].
  - unfold authorizeContractor.
    repeat match goal with
           | |- context [if ?c then _ else _] => destruct c eqn:?
           end; cbn; auto.
  - unfold revokeContractor.
    repeat match goal with
           | |- context [if ?c then _ else _] => destruct c eqn:?
           end; cbn; auto.
  - unfold createProject.
    repeat match goal with
           | |- context [if ?c then _ else _] => destruct c eqn:?
           end; cbn [storage_after]; auto.
    cbn [projects]. rewrite upd_other by lia.
    split; [|now split]. apply valid_id_range. cbn. lia.
  - unfold submitBid.
    repeat match goal with
           | |- context [if ?c then _ else _] => destruct c eqn:?
           end; cbn [storage_after]; auto.
    cbn [projects]. split; [exact Hv|].
    destruct (Z.eq_dec projectId p) as [->|Hne]; [congruence|].
    rewrite upd_other by exact Hne. now split.
  - unfold closeBidding.
    repeat match goal with
           | |- context [if ?c then _ else _] => destruct c eqn:?
           end; cbn [storage_after]; auto.
    cbn [projects set_project]. split; [exact Hv|].
    destruct (Z.eq_dec projectId p) as [->|Hne]; [congruence|].
    rewrite upd_other by exact Hne. now split.
  - unfold evaluateBids. destruct (evaluate_loop _ _ _ _ _ _) as [best lowest].
    repeat match goal with
           | |- context [if ?c then _ else _] => destruct c eqn:?
           end; cbn [storage_after]; auto.
    cbn [projects set_project]. split; [exact Hv|].
    destruct (Z.eq_dec projectId p) as [->|Hne].
    + rewrite upd_same. cbn. now split.
    + rewrite upd_other by exact Hne. now split.
Qed.


(** X13: transactions that are not sent by the owner never change who the
    owner is nor which contractors are authorised. *)
Theorem authorization_only_by_owner (s : State) (txs : list (Msg * Call))
    (c : address) :
  Forall (fun tx => sender (fst tx) <> owner s) txs ->
  owner (execs' s txs) = owner s /\
  authorizedContractors (execs' s txs) c = authorizedContractors s c.
Proof.
  revert s. induction txs as [|tx txs IH]; intros s Hall; [now split|].
  inversion Hall as [|tx' txs' Htx Hrest]; subst.
  rewrite execs_cons. destruct (exec_frame s tx) as (Ho & _ & Ha & _).
  destruct (IH (exec' s tx)) as [IHo IHa].
  { rewrite Ho. exact Hrest. }
  split; [congruence|]. rewrite IHa. now apply Ha.
Qed.

(** X17: a project whose bidding is closed stays closed, and its list of
    bidders never changes again, whatever transactions follow. *)
Theorem closed_bidding_is_final (s : State) (txs : list (Msg * Call))
    (projectId : Z) :
  valid_id s projectId = true ->
  biddingClosed (projects s projectId) = true ->
  biddingClosed (projects (execs' s txs) projectId) = true /\
  bidders (projects (execs' s txs) projectId) = bidders (projects s projectId).
Proof.
  revert s. induction txs as [|tx txs IH]; intros s Hv Hc; [now split|].
  rewrite execs_cons.
  destruct (exec_closed s tx projectId Hv Hc) as (Hv' & Hc' & Hb').
  destruct (IH (exec' s tx) Hv' Hc') as [IHc IHb].
  split; [exact IHc | congruence].
Qed.

(** X18: a contractor bids at most once on a project: after a bid that
    succeeded, every later [submitBid] of the same sender on that project
    reverts, whatever happened in between. *)
Theorem one_bid_per_contractor (s s1 : State) (m m' : Msg)
    (projectId bidAmount completionTime bidAmount' completionTime' : Z)
    (proposal proposal' : string) (logs : list Log) (txs : list (Msg * Call)) :
  submitBid asEuint32 m projectId bidAmount completionTime proposal s
  = Success tt s1 logs ->
  sender m' = sender m ->
  exists reason,
    submitBid asEuint32 m' projectId bidAmount' completionTime' proposal'
      (execs' s1 txs) = Revert reason.
Proof.
  intros H Hm.
  assert (Hsub : submitted (bids s1 projectId (sender m)) = true).
  { unfold submitBid in H. tests H. inversion H; subst. cbn.
    now rewrite !upd_same. }
  assert (Hstays : forall txs s, submitted (bids s projectId (sender m)) = true ->
                     submitted (bids (execs' s txs) projectId (sender m)) = true).
  { clear. induction txs as [|tx txs IH]; intros s Hs; [exact Hs|].
    rewrite execs_cons. apply IH.
    now apply (proj2 (proj2 (proj2 (exec_frame s tx)))). }
  pose proof (Hstays txs s1 Hsub) as Hnow.
  unfold submitBid. rewrite Hm, Hnow.
  repeat match goal with
         | |- context [if ?c then _ else _] => destruct c eqn:?
         end; eauto.
Qed.

(** X15: a bid that succeeds has passed the test
    [0 < bidAmount <= maxBudget] on the full amount, but what is encrypted
    and stored is [uint32(bidAmount)], the amount modulo 2^32 (and likewise
    for the completion time); the two agree when the amount is below 2^32. *)
Theorem submitBid_keeps_low_bits (s s1 : State) (m : Msg)
    (projectId bidAmount completionTime : Z) (proposal : string)
    (logs : list Log) :
  submitBid asEuint32 m projectId bidAmount completionTime proposal s
  = Success tt s1 logs ->
  0 < bidAmount <= maxBudget (projects s projectId) /\
  encryptedAmount (bids s1 projectId (sender m))
  = asEuint32 (bidAmount mod 2 ^ 32) /\
  encryptedCompletionTime (bids s1 projectId (sender m))
  = asEuint32 (completionTime mod 2 ^ 32) /\
  (bidAmount < 2 ^ 32 ->
   encryptedAmount (bids s1 projectId (sender m)) = asEuint32 bidAmount).
Proof.
  intros H. unfold submitBid in H. tests H. inversion H; subst. cbn.
  rewrite !upd_same. cbn.
  match goal with
  | Hb : negb (_ && _) = false |- _ =>
      apply negb_false_iff, andb_true_iff in Hb; destruct Hb as [Hlo Hhi];
      apply Z.ltb_lt in Hlo; apply Z.leb_le in Hhi
  end.
  split; [lia|]. split; [reflexivity|]. split; [reflexivity|].
  intros Hsmall. unfold uint32. now rewrite Z.mod_small by lia.
Qed.

Lemma evaluate_loop_zero (bidsOf : address -> PrivateBid)
    (rest : list address) (lowest : Z) :
  (fst (evaluate_loop FHE_lt FHE_select bidsOf rest 0 lowest) =? 0)
  = forallb (fun b => b =? 0) rest.
Proof.
  revert lowest. induction rest as [|b rest IH]; intros lowest;
    cbn [evaluate_loop forallb]; [reflexivity|].
  rewrite Z.eqb_refl. destruct (b =? 0) eqn:Hb; cbn [andb].
  - apply Z.eqb_eq in Hb. subst b. apply IH.
  - apply Z.eqb_neq in Hb. rewrite evaluate_loop_keeps_best by exact Hb.
    now apply Z.eqb_neq.
Qed.

(** X16: [evaluateBids] succeeds only for the creator of a project whose
    bidding is closed and which has a bidder.  When some bidder is not the
    zero address, the winner it records is the first bidder of the list,
    [bidders[0]], whatever the encrypted amounts are and whatever the FHE
    comparison answers, and the project becomes inactive; when every bidder
    is the zero address, it records nothing: the storage is as before and no
    event is emitted. *)
Theorem evaluateBids_picks_first (s s1 : State) (m : Msg) (projectId : Z)
    (logs : list Log) :
  evaluateBids asEuint32 FHE_lt FHE_select m projectId s = Success tt s1 logs ->
  sender m = creator (projects s projectId) /\
  biddingClosed (projects s projectId) = true /\
  bidders (projects s projectId) <> [] /\
  (forallb (fun b => b =? 0) (bidders (projects s projectId)) = false ->
   winner (projects s1 projectId) = nth 0 (bidders (projects s projectId)) 0 /\
   isActive (projects s1 projectId) = false /\
   bidders (projects s1 projectId) = bidders (projects s projectId) /\
   logs = [WinnerSelected projectId (nth 0 (bidders (projects s projectId)) 0)]) /\
  (forallb (fun b => b =? 0) (bidders (projects s projectId)) = true ->
   s1 = s /\ logs = []).
Proof.
  intros H. unfold evaluateBids in H.
  pose proof (evaluate_loop_zero (bids s projectId)
                (bidders (projects s projectId)) (asEuint32 MAX_UINT32)) as Hz.
  destruct (evaluate_loop FHE_lt FHE_select (bids s projectId)
              (bidders (projects s projectId)) 0 (asEuint32 MAX_UINT32))
    as [best lowest].
  cbn [fst] in Hz.
  destruct (negb (valid_id s projectId)); [discriminate|].
  destruct (sender m =? creator (projects s projectId)) eqn:Hs;
    [|discriminate]. cbn [negb] in H.
  destruct (biddingClosed (projects s projectId)) eqn:Hc; [|discriminate].
  cbn [negb] in H.
  destruct (0 <? Z.of_nat (List.length (bidders (projects s projectId))))
    eqn:Hl; [|discriminate]. cbn [negb] in H.
  apply Z.eqb_eq in Hs. split; [exact Hs|]. split; [reflexivity|].
  split.
  { intros Hnil. rewrite Hnil in Hl. discriminate. }
  destruct (best =? 0) eqn:Hb; cbn [negb] in H; inversion H; subst;
    rewrite <- Hz.
  - split; [discriminate | now split].
  - split; [|discriminate]. intros _. cbn. rewrite upd_same. cbn.
    now repeat split.
Qed.

End MoreFacts.

(** X14: when the owner has authorised a contractor, the owner can revoke
    it, and after the revocation every account is authorised exactly when it
    was before the two transactions. *)
Theorem authorize_then_revoke (s s1 : State) (m m' : Msg) (c : address)
    (logs : list Log) :
  authorizeContractor m c s = Success tt s1 logs ->
  sender m' = owner s ->
  exists s2,
    revokeContractor m' c s1 = Success tt s2 [ContractorRevoked c] /\
    isAuthorizedContractor c s1 = true /\
    forall x, isAuthorizedContractor x s2 = isAuthorizedContractor x s.
Proof.
  intros H Hm. unfold authorizeContractor in H. tests H. inversion H; subst.
  unfold revokeContractor, isAuthorizedContractor. cbn.
  rewrite Hm, Z.eqb_refl, upd_same. cbn.
  eexists. split; [reflexivity|]. split; [reflexivity|].
  intros x. cbn. unfold upd. destruct (x =? c) eqn:Hx; [|reflexivity].
  apply Z.eqb_eq in Hx. now subst.
Qed.


Lemma authorization_only_by_owner_witness :
  owner (execs plain plain_lt plain_select example_open
           [(contractor_at 201 1010, RevokeContractor 202);
            (contractor_at 201 1010, AuthorizeContractor 300)])
  = owner example_open /\
  authorizedContractors
    (execs plain plain_lt plain_select example_open
       [(contractor_at 201 1010, RevokeContractor 202);
        (contractor_at 201 1010, AuthorizeContractor 300)]) 202
  = authorizedContractors example_open 202.
Proof.
  apply (authorization_only_by_owner plain plain_lt plain_select example_open
           [(contractor_at 201 1010, RevokeContractor 202);
            (contractor_at 201 1010, AuthorizeContractor 300)] 202).
  repeat constructor; discriminate.
Defined.

Lemma authorize_then_revoke_witness :
  exists s2,
    revokeContractor (owner_at 1001) 201
      (storage_after (constructor (owner_at 999))
         (authorizeContractor (owner_at 1000) 201 (constructor (owner_at 999))))
    = Success tt s2 [ContractorRevoked 201] /\
    isAuthorizedContractor 201
      (storage_after (constructor (owner_at 999))
         (authorizeContractor (owner_at 1000) 201 (constructor (owner_at 999))))
    = true /\
    forall x,
      isAuthorizedContractor x s2
      = isAuthorizedContractor x (constructor (owner_at 999)).
Proof.
  apply (authorize_then_revoke (constructor (owner_at 999)) _ (owner_at 1000)
           (owner_at 1001) 201 [ContractorAuthorized 201]); reflexivity.
Defined.

Lemma submitBid_keeps_low_bits_witness :
  0 < 2 ^ 32 + 1 <= maxBudget (projects example_open 1) /\
  encryptedAmount
    (bids (storage_after example_open
             (submitBid plain (contractor_at 202 1010) 1 (2 ^ 32 + 1) 30 "late"
                example_open)) 1 202)
  = plain ((2 ^ 32 + 1) mod 2 ^ 32) /\
  encryptedCompletionTime
    (bids (storage_after example_open
             (submitBid plain (contractor_at 202 1010) 1 (2 ^ 32 + 1) 30 "late"
                example_open)) 1 202)
  = plain (30 mod 2 ^ 32) /\
  (2 ^ 32 + 1 < 2 ^ 32 ->
   encryptedAmount
     (bids (storage_after example_open
              (submitBid plain (contractor_at 202 1010) 1 (2 ^ 32 + 1) 30 "late"
                 example_open)) 1 202)
   = plain (2 ^ 32 + 1)).
Proof.
  apply (submitBid_keeps_low_bits plain example_open _ (contractor_at 202 1010) 1
           (2 ^ 32 + 1) 30 "late"
           (logs_of (submitBid plain (contractor_at 202 1010) 1 (2 ^ 32 + 1) 30
                       "late" example_open))).
  reflexivity.
Defined.

(** A bid of 2^32 + 1 passes the test against a budget of 2^40 and is stored
    as the encryption of 1. *)
Example submitBid_wraps :
  encryptedAmount
    (bids (storage_after example_open
             (submitBid plain (contractor_at 202 1010) 1 (2 ^ 32 + 1) 30 "late"
                example_open)) 1 202) = 1.
Proof. reflexivity. Qed.

Lemma evaluateBids_picks_first_witness :
  forallb (fun b => b =? 0) (bidders (projects example_closed 1)) = false /\
  winner (projects
            (storage_after example_closed
               (evaluateBids plain plain_lt plain_select (owner_at 1040) 1
                  example_closed)) 1)
  = nth 0 (bidders (projects example_closed 1)) 0 /\
  isActive (projects
              (storage_after example_closed
                 (evaluateBids plain plain_lt plain_select (owner_at 1040) 1
                    example_closed)) 1) = false /\
  bidders (projects
             (storage_after example_closed
                (evaluateBids plain plain_lt plain_select (owner_at 1040) 1
                   example_closed)) 1)
  = bidders (projects example_closed 1) /\
  logs_of (evaluateBids plain plain_lt plain_select (owner_at 1040) 1
             example_closed)
  = [WinnerSelected 1 (nth 0 (bidders (projects example_closed 1)) 0)].
Proof.
  destruct (evaluateBids_picks_first plain plain_lt plain_select example_closed
              (storage_after example_closed
                 (evaluateBids plain plain_lt plain_select (owner_at 1040) 1
                    example_closed))
              (owner_at 1040) 1
              (logs_of (evaluateBids plain plain_lt plain_select (owner_at 1040) 1
                          example_closed))
              eq_refl)
    as (_ & _ & _ & Hwin & _).
  split; [reflexivity|]. exact (Hwin eq_refl).
Defined.

(** When the only bidder is the zero address, nothing is recorded. *)
Example evaluateBids_zero_bidder :
  evaluateBids plain plain_lt plain_select (owner_at 1040) 1
    (execs plain plain_lt plain_select (constructor (owner_at 999))
       [(owner_at 1000, AuthorizeContractor 0);
        (owner_at 1000, CreateProject "Bridge" "A footbridge" 1000 5000 100);
        (contractor_at 0 1010, SubmitBid 1 900 30 "zero");
        (owner_at 1030, CloseBidding 1)])
  = Success tt
      (execs plain plain_lt plain_select (constructor (owner_at 999))
         [(owner_at 1000, AuthorizeContractor 0);
          (owner_at 1000, CreateProject "Bridge" "A footbridge" 1000 5000 100);
          (contractor_at 0 1010, SubmitBid 1 900 30 "zero");
          (owner_at 1030, CloseBidding 1)])
      [].
Proof. reflexivity. Qed.

(** Contractor 201, who bid 900, wins over contractor 202, who bid 5. *)
Example evaluateBids_first_wins :
  bidders (projects example_closed 1) = [201; 202] /\
  encryptedAmount (bids example_closed 1 201) = 900 /\
  encryptedAmount (bids example_closed 1 202) = 5 /\
  winner (projects
            (storage_after example_closed
               (evaluateBids plain plain_lt plain_select (owner_at 1040) 1
                  example_closed)) 1) = 201.
Proof. repeat split; reflexivity. Qed.

Lemma closed_bidding_is_final_witness :
  biddingClosed
    (projects
       (execs plain plain_lt plain_select example_closed
          [(contractor_at 202 1031, SubmitBid 1 7 20 "again");
           (owner_at 1040, EvaluateBids 1)]) 1) = true /\
  bidders
    (projects
       (execs plain plain_lt plain_select example_closed
          [(contractor_at 202 1031, SubmitBid 1 7 20 "again");
           (owner_at 1040, EvaluateBids 1)]) 1)
  = bidders (projects example_closed 1).
Proof.
  apply (closed_bidding_is_final plain plain_lt plain_select example_closed
           [(contractor_at 202 1031, SubmitBid 1 7 20 "again");
            (owner_at 1040, EvaluateBids 1)] 1); reflexivity.
Defined.

Lemma one_bid_per_contractor_witness :
  exists reason,
    submitBid plain (contractor_at 201 1015) 1 800 25 "better"
      (execs plain plain_lt plain_select
         (storage_after example_open
            (submitBid plain (contractor_at 201 1010) 1 900 30 "first"
               example_open))
         [(contractor_at 202 1012, SubmitBid 1 5 20 "second")])
    = Revert reason.
Proof.
  apply (one_bid_per_contractor plain plain_lt plain_select example_open _
           (contractor_at 201 1010) (contractor_at 201 1015) 1 900 30 800 25
           "first" "better"
           (logs_of (submitBid plain (contractor_at 201 1010) 1 900 30 "first"
                       example_open))
           [(contractor_at 202 1012, SubmitBid 1 5 20 "second")]);
    reflexivity.
Defined.

Lemma execs_keeps (asEuint32 : Z -> Z) (FHE_lt : Z -> Z -> Z)
    (FHE_select : Z -> Z -> Z -> Z) (txs : list (Msg * Call)) (s : State) :
  invariant s -> invariant (execs asEuint32 FHE_lt FHE_select s txs).
Proof.
  revert s. induction txs as [|tx txs IH]; intros s Hs; [exact Hs|].
  apply (IH (exec asEuint32 FHE_lt FHE_select s tx)). now apply exec_keeps.
Qed.

(** X19: on a contract reached by any transactions from its deployment, a
    [createProject] that succeeds returns the next project number, and the
    project it creates is active, open for bids, created by the sender, with
    no bidder and no winner; every other project is as before. *)
Theorem createProject_starts_empty (asEuint32 : Z -> Z) (FHE_lt : Z -> Z -> Z)
    (FHE_select : Z -> Z -> Z -> Z) (deployer m : Msg)
    (txs : list (Msg * Call)) (n d : string) (budget dl duration : Z)
    (projectId : Z) (s1 : State) (logs : list Log) :
  createProject m n d budget dl duration
    (execs asEuint32 FHE_lt FHE_select (constructor deployer) txs)
  = Success projectId s1 logs ->
  projectId
  = projectCount (execs asEuint32 FHE_lt FHE_select (constructor deployer) txs) + 1 /\
  projectCount s1 = projectId /\
  bidders (projects s1 projectId) = [] /\
  winner (projects s1 projectId) = 0 /\
  isActive (projects s1 projectId) = true /\
  biddingClosed (projects s1 projectId) = false /\
  creator (projects s1 projectId) = sender m /\
  biddingEndTime (projects s1 projectId) = block_timestamp m + duration /\
  (forall other, other <> projectId ->
     projects s1 other
     = projects (execs asEuint32 FHE_lt FHE_select (constructor deployer) txs) other).
Proof.
  pose proof (execs_keeps asEuint32 FHE_lt FHE_select txs (constructor deployer)
                (constructor_invariant deployer)) as [H1 H2 H3 H4 H5].
  set (s := execs asEuint32 FHE_lt FHE_select (constructor deployer) txs) in *.
  intros H. unfold createProject in H. tests H. inversion H; subst.
  cbn [projectCount projects]. rewrite !upd_same. cbn.
  assert (Hempty : bidders (projects s (projectCount s + 1)) = []).
  { destruct (bidders (projects s (projectCount s + 1))) as [|a rest] eqn:Hb;
      [reflexivity|].
    assert (Hin : In a (bidders (projects s (projectCount s + 1))))
      by (rewrite Hb; now left).
    apply H4 in Hin. rewrite H2 in Hin; [discriminate|].
    unfold valid_id. apply andb_false_iff. right. apply Z.leb_gt. lia. }
  repeat split; try reflexivity; try exact Hempty.
  intros other Hne. now apply upd_other.
Qed.

Lemma createProject_starts_empty_witness :
  2 = projectCount
        (execs plain plain_lt plain_select (constructor (owner_at 999))
           [(owner_at 1000, AuthorizeContractor 201);
            (owner_at 1000, CreateProject "Bridge" "A footbridge" (2 ^ 40) 5000 100)])
      + 1 /\
  bidders
    (projects
       (storage_after
          (execs plain plain_lt plain_select (constructor (owner_at 999))
             [(owner_at 1000, AuthorizeContractor 201);
              (owner_at 1000,
               CreateProject "Bridge" "A footbridge" (2 ^ 40) 5000 100)])
          (createProject (contractor_at 201 1005) "Road" "A road" 700 9000 50
             (execs plain plain_lt plain_select (constructor (owner_at 999))
                [(owner_at 1000, AuthorizeContractor 201);
                 (owner_at 1000,
                  CreateProject "Bridge" "A footbridge" (2 ^ 40) 5000 100)])))
       2) = [].
Proof.
  destruct (createProject_starts_empty plain plain_lt plain_select
              (owner_at 999) (contractor_at 201 1005)
              [(owner_at 1000, AuthorizeContractor 201);
               (owner_at 1000,
                CreateProject "Bridge" "A footbridge" (2 ^ 40) 5000 100)]
              "Road" "A road" 700 9000 50 2 _
              [ProjectCreated 2 201 "Road"] eq_refl)
    as (Hid & _ & Hb & _).
  split; [exact Hid | exact Hb].
Defined.

End BiddingFacts.
